(** * peoples-speech-prep: resharding of tar archives, metadata subsets, manifest

    A shallow embedding of [tarsplit.py], [prepare.py] and [prepare_repo.py].

    - [Tar] models the part of Python's [tarfile] the scripts call: a writer
      with its running [offset], [addfile], [extractfile] and the size of the
      file left on disk by [close].
    - [TarSplit] is [resplit_tars], the generator that repacks a stream of
      members into size-bounded archives.
    - [Subset] is the metadata filter ([build_subsets] and [make_subset]),
      with the contract of the filter stated next to it.
    - [Manifest] is [build_manifest], over a file system given by its
      directory listings and digests.
    - [Index] is [build_index], [Cli] is [parse_size], and [Files] holds the
      two loops that read a file in chunks ([hash_path] and the copy in
      [do_tar_splits]).
    - [Cases] holds the concrete inputs the examples run on.

    The facts follow the definitions, in the same order. *)

From Stdlib Require Import ZArith Lia Ascii String DecimalString DecimalNat.
From stdpp Require Import base gmap sets list strings sorting.

Local Open Scope Z_scope.
#[local] Set Warnings "-clear-no-such-hyp".

(** ** The tarfile library, as far as the scripts use it *)

Module Tar.

Definition BLOCKSIZE : Z := 512.
Definition RECORDSIZE : Z := BLOCKSIZE * 20.

(** A member header.  [ti_isreg] tells a regular file from the other
    member types (directories, devices, fifos), which carry no payload.
    [ti_ext_blocks] counts the blocks that [TarInfo.tobuf] puts in front of
    the 512-byte header in the default pax format: none for a member whose
    fields fit the plain header, the extended header and its records for a
    name of more than 100 bytes, a field that is not ASCII, or pax headers
    read from the source archive. *)
Record TarInfo : Type := {
  ti_name : string;
  ti_size : Z;
  ti_isreg : bool;
  ti_ext_blocks : nat
}.

(** The reader handed out by [TarFile.extractfile]. *)
Inductive BinaryIO : Type := ExFileObject (info : TarInfo).

(** [tf.extractfile(info)]: a reader for a regular file, [None] for every
    other member. *)
Definition extractfile (info : TarInfo) : option BinaryIO :=
  if ti_isreg info then Some (ExFileObject info) else None.

(** What the entry stream yields and what [addfile] receives. *)
Definition member : Type := TarInfo * option BinaryIO.

(** An archive opened with mode ['w']. *)
Record TarFile : Type := {
  tf_path : string;
  tf_members : list member;
  tf_offset : Z
}.

Definition open_w (path : string) : TarFile :=
  {| tf_path := path; tf_members := []; tf_offset := 0 |}.

(** [divmod(tarinfo.size, BLOCKSIZE)], with one more block when there is a
    remainder. *)
Definition payload_blocks (size : Z) : Z :=
  let blocks := size / BLOCKSIZE in
  let remainder := size mod BLOCKSIZE in
  if remainder >? 0 then blocks + 1 else blocks.

(** [len(buf)] for [buf = tarinfo.tobuf(...)]: the extended header blocks,
    if any, and the header block itself. *)
Definition header_size (info : TarInfo) : Z :=
  (Z.of_nat (ti_ext_blocks info) + 1) * BLOCKSIZE.

(** What [addfile] adds to [self.offset] for one member: the header, then,
    only when a reader is given, the payload padded to whole blocks. *)
Definition stored_size (m : member) : Z :=
  match snd m with
  | Some _ => header_size (fst m) + payload_blocks (ti_size (fst m)) * BLOCKSIZE
  | None => header_size (fst m)
  end.

(** [TarFile.addfile] *)
Definition addfile (tf : TarFile) (m : member) : TarFile :=
  {| tf_path := tf_path tf; tf_members := tf_members tf ++ [m];
     tf_offset := tf_offset tf + stored_size m |}.

(** The offset of an archive that holds exactly these members. *)
Definition data_size (ms : list member) : Z :=
  foldr (fun m acc => stored_size m + acc) 0 ms.

(** [TarFile.close]: two zero blocks, then zero fill up to a whole record.
    The result is the size of the file on disk. *)
Definition closed_size (offset : Z) : Z :=
  let offset := offset + BLOCKSIZE * 2 in
  let remainder := offset mod RECORDSIZE in
  if remainder >? 0 then offset + (RECORDSIZE - remainder) else offset.

End Tar.

(** ** [resplit_tars] *)

Module TarSplit.
Import Tar.

(** [tqdm_tar_iter]: the members of one source archive with their readers. *)
Definition tqdm_tar_iter (archive : list TarInfo) : list member :=
  map (fun info => (info, extractfile info)) archive.

(** [iter_tars]: the source archives one after the other. *)
Definition iter_tars (paths : list (list TarInfo)) : list member :=
  flat_map tqdm_tar_iter paths.

(** [f"{n:06d}"]: decimal digits, zero filled on the left to six places. *)
Fixpoint zeros (k : nat) : string :=
  match k with
  | O => ""
  | S k => String "0"%char (zeros k)
  end.

Definition zfill (width : nat) (s : string) : string :=
  zeros (width - String.length s) +:+ s.

Definition fmt06 (n : nat) : string :=
  zfill 6 (NilEmpty.string_of_uint (Nat.to_uint n)).

(** [str(dst / f"{name}_{n:06d}.tar")] *)
Definition out_path (dst name : string) (n : nat) : string :=
  dst +:+ "/" +:+ name +:+ "_" +:+ fmt06 n +:+ ".tar".


(** An archive after the [with] block has closed it.  [sh_offset] is
    [tf.offset] when the block is left, [sh_break] the member on which the
    inner loop executed [break] ([None] when the stream ran dry). *)
Record shard : Type := {
  sh_path : string;
  sh_members : list member;
  sh_offset : Z;
  sh_break : option member
}.

Definition sh_size (s : shard) : Z := closed_size (sh_offset s).

Definition close (tf : TarFile) (brk : option member) : shard :=
  {| sh_path := tf_path tf; sh_members := tf_members tf;
     sh_offset := tf_offset tf; sh_break := brk |}.

(** What a consumer that exhausts the generator can observe, in program
    order: an archive being closed on disk, and a path being yielded. *)
Inductive event : Type :=
| Closed (s : shard)
| Yielded (path : string).

(** Lines 52-55: open archive [n] and write the carried member, which
    happens only when both loop variables are not [None]. *)
Definition open_shard (dst name : string) (n : nat) (pending : option member) : TarFile :=
  let tf := open_w (out_path dst name n) in
  match pending with
  | Some (info, Some fileobj) => addfile tf (info, Some fileobj)
  | _ => tf
  end.

(** Line 58: [size = 512 + info.size]. *)
Definition framed (m : member) : Z := 512 + ti_size (fst m).

(** The two nested loops, from inside archive [n], driven by what is left
    of the entry stream.
    - the stream is empty: the [else] branch of the inner loop leaves the
      outer loop, the [with] block closes the archive, and the statement
      after the loop yields [out_path] (lines 62-63, 65);
    - [m] does not fit: [break] leaves the inner loop only; the [yield] of
      line 64 is still inside the [with] block, so the path is yielded
      while the archive is open, and the archive is closed when the
      generator is resumed and the block is left; then archive [n + 1] is
      opened and [m] is carried into it (lines 59-60, 64, 51-55);
    - otherwise [m] is added (line 61). *)
Fixpoint pull (dst name : string) (target_size : Z) (src_iter : list member)
    (n : nat) (tf : TarFile) : list event :=
  match src_iter with
  | [] => [Closed (close tf None); Yielded (out_path dst name n)]
  | m :: rest =>
      if tf_offset tf + framed m >? target_size
      then Yielded (out_path dst name n) :: Closed (close tf (Some m))
             :: pull dst name target_size rest (S n) (open_shard dst name (S n) (Some m))
      else pull dst name target_size rest n (addfile tf m)
  end.

(** [resplit_tars name src dst split_max], where [src] is the list of
    source archives in the order the script sorts them. *)
Definition resplit_tars (name : string) (src : list (list TarInfo)) (dst : string)
    (split_max : Z) : list event :=
  let target_size := split_max - BLOCKSIZE in
  pull dst name target_size (iter_tars src) 0 (open_shard dst name 0 None).

Definition closed_of (e : event) : option shard :=
  match e with Closed s => Some s | Yielded _ => None end.

Definition yielded_of (e : event) : option string :=
  match e with Closed _ => None | Yielded p => Some p end.

(** The archives left on disk, and the paths the generator yielded. *)
Definition shards (name : string) (src : list (list TarInfo)) (dst : string)
    (split_max : Z) : list shard :=
  omap closed_of (resplit_tars name src dst split_max).

Definition yielded (name : string) (src : list (list TarInfo)) (dst : string)
    (split_max : Z) : list string :=
  omap yielded_of (resplit_tars name src dst split_max).

(** The least admissible size according to the specification: one header
    block, a reserve for the two trailer blocks, and the largest framed
    size in the stream. *)
Definition largest_framed (src : list (list TarInfo)) : Z :=
  foldr Z.max 0 (framed <$> iter_tars src).

Definition min_viable (src : list (list TarInfo)) : Z :=
  BLOCKSIZE + 2 * BLOCKSIZE + largest_framed src.

(** What [open_shard] writes for a pending member: the member itself when
    it has a reader, nothing otherwise. *)
Definition carried (m : member) : list member :=
  match snd m with
  | Some _ => [m]
  | None => []
  end.

(** [fits target off ms]: each member of [ms] in turn passes the test of
    line 59 against an archive whose offset was [off] before the first. *)
Fixpoint fits (target off : Z) (ms : list member) : Prop :=
  match ms with
  | [] => True
  | m :: ms => off + framed m <= target /\ fits target (off + stored_size m) ms
  end.

(** [greedy target base ss es]: the archives [ss] are a greedy cut of the
    stream [es].  The first archive started from the members [base]; it
    holds them followed by a run [pulled] of stream entries, each of which
    passed the test of line 59; its offset is the stored size of what it
    holds.  Either the stream ends with that run and the archive is the
    last, or the next entry [m] of the stream fails the test against the
    archive's final offset, and the rest of the stream is cut the same way
    into the following archives, the next of which starts from what is
    carried of [m]. *)
Fixpoint greedy (target : Z) (base : list member) (ss : list shard)
    (es : list member) {struct ss} : Prop :=
  match ss with
  | [] => False
  | s :: ss =>
      exists pulled,
        sh_members s = base ++ pulled
        /\ sh_offset s = data_size (sh_members s)
        /\ fits target (data_size base) pulled
        /\ match sh_break s with
           | None => ss = [] /\ es = pulled
           | Some m =>
               sh_offset s + framed m > target
               /\ exists rest, es = pulled ++ m :: rest
                               /\ greedy target (carried m) ss rest
           end
  end.

(** The events of one archive: left through [break], its path is yielded
    inside the [with] block and the archive closed afterwards; left because
    the stream ran dry, it is closed before the statement after the loop
    yields its path. *)
Definition shard_events (s : shard) : list event :=
  match sh_break s with
  | Some _ => [Yielded (sh_path s); Closed s]
  | None => [Closed s; Yielded (sh_path s)]
  end.

(** The member names of each archive, for reading results. *)
Definition names_of (ss : list shard) : list (list string) :=
  map (fun s => map (fun m => ti_name (fst m)) (sh_members s)) ss.

End TarSplit.

(** ** The metadata subset filter *)

Module Subset.

Local Open Scope nat_scope.

(** One line of the metadata file: the fields that are copied through, and
    [training_data], a dict from column name to the column's values. *)
Record record : Type := {
  passthrough : gmap string string;
  training_data : gmap string (list string)
}.

Inductive exn : Type :=
| KeyError (key : string)
| ValueError.

Inductive result (A : Type) : Type :=
| Ok (a : A)
| Raise (e : exn).
Arguments Ok {A} a.
Arguments Raise {A} e.

Definition bind {A B : Type} (r : result A) (k : A -> result B) : result B :=
  match r with
  | Ok a => k a
  | Raise e => Raise e
  end.

(** [d[k]] *)
Definition getitem {V : Type} (d : gmap string V) (k : string) : result V :=
  match d !! k with
  | Some v => Ok v
  | None => Raise (KeyError k)
  end.

(** [[d[k] for k in keys]], evaluated from left to right. *)
Fixpoint getitems {V : Type} (d : gmap string V) (keys : list string) : result (list V) :=
  match keys with
  | [] => Ok []
  | k :: keys =>
      bind (getitem d k) (fun v => bind (getitems d keys) (fun vs => Ok (v :: vs)))
  end.

(** [zip] applied to the unpacked columns: the rows of a table given by
    its columns, as long as the shortest column; no rows when there is no
    column. *)
Fixpoint zip_star {A : Type} (cols : list (list A)) : list (list A) :=
  match cols with
  | [] => []
  | c :: cs =>
      match cs with
      | [] => map (fun x => [x]) c
      | _ :: _ => zip_with cons c (zip_star cs)
      end
  end.

(** [dict(pairs)]: a later pair overwrites an earlier one with its key. *)
Definition dict {V : Type} (pairs : list (string * V)) : gmap string V :=
  foldl (fun d kv => <[kv.1 := kv.2]> d) ∅ pairs.

(** [s.endswith(suffix)] *)
Definition endswith (s suffix : string) : bool :=
  let n := String.length s in
  let k := String.length suffix in
  if decide (k <= n) then bool_decide (String.substring (n - k) k s = suffix) else false.

(** The state of one pass: the names not matched yet, and the tuples kept
    for the current line. *)
Definition scan : Type := gset string * list (list string).

(** The body of the inner loop, once the tuple's name is known:
    [if name in filenames: todo.remove(name); valid.append(values)].
    [set.remove] raises [KeyError] when the element is absent. *)
Definition take (filenames : gset string) (name : string) (values : list string)
    (st : scan) : result scan :=
  if decide (name ∈ filenames) then
    if decide (name ∈ st.1) then Ok (st.1 ∖ {[name]}, st.2 ++ [values])
    else Raise (KeyError name)
  else Ok st.

(** The inner loop over the tuples of one line. *)
Fixpoint rows_loop (name_of : list string -> result string) (filenames : gset string)
    (rows : list (list string)) (st : scan) : result scan :=
  match rows with
  | [] => Ok st
  | values :: rows =>
      bind (name_of values) (fun name =>
      bind (take filenames name values st) (rows_loop name_of filenames rows))
  end.

(** The lines after the inner loop: nothing is written for a line without
    a kept tuple. *)
Definition emit (j : record) (train_keys : list string) (valid : list (list string))
    : option record :=
  match valid with
  | [] => None
  | _ :: _ =>
      Some {| passthrough := passthrough j;
              training_data := dict (zip train_keys (zip_star valid)) |}
  end.

(** What a pass leaves behind: the lines written to the output file, the
    count printed at the end when names are left over, and the exception
    that ended the pass, if any. *)
Record pass : Type := {
  written : list record;
  missing : option nat;
  raised : option exn
}.

(** Lines 122-123: the count of names left over, printed when there are
    any. *)
Definition report (todo : gset string) : option nat :=
  if decide (todo = ∅) then None else Some (size todo).

(** The loop over the lines of the metadata file.  An exception leaves the
    lines written so far in the file and skips the final report. *)
Fixpoint lines_loop (line : record -> gset string -> result (gset string * option record))
    (lines : list record) (todo : gset string) : pass :=
  match lines with
  | [] =>
      {| written := []; missing := report todo; raised := None |}
  | j :: lines =>
      match line j todo with
      | Ok (todo, out) =>
          let p := lines_loop line lines todo in
          {| written := option_list out ++ written p;
             missing := missing p; raised := raised p |}
      | Raise e => {| written := []; missing := None; raised := Some e |}
      end
  end.

(** *** [prepare.py]: [build_subsets], for one split *)

Definition train_keys : list string := ["duration_ms"; "label"; "name"; "raw_label"].

(** [for duration, label, name, raw_label in ...] *)
Definition unpack_name (values : list string) : result string :=
  match values with
  | [duration; label; name; raw_label] => Ok name
  | _ => Raise ValueError
  end.

(** Lines 110-120. *)
Definition build_subsets_line (filenames : gset string) (j : record) (todo : gset string)
    : result (gset string * option record) :=
  let train := training_data j in
  bind (getitems train train_keys) (fun cols =>
  bind (rows_loop unpack_name filenames (zip_star cols) (todo, [])) (fun st =>
  Ok (st.1, emit j train_keys st.2))).

(** [tar_names] is [tf.getnames()] of the split's first archive, [lines]
    the parsed lines of the split's metadata file. *)
Definition build_subsets (tar_names : list string) (lines : list record) : pass :=
  let filenames : gset string := list_to_set tar_names in
  let todo := filenames in
  lines_loop (build_subsets_line filenames) lines todo.

(** *** [prepare_repo.py]: [make_subset] *)

Section MakeSubset.

(** [os.path.normpath] *)
Variable normpath : string -> string.

(** Lines 27-28: [obj = dict(zip(train_keys, values))] and
    [name = os.path.normpath(obj['name'])]. *)
Definition obj_name (train_keys values : list string) : result string :=
  let obj := dict (zip train_keys values) in
  bind (getitem obj "name") (fun name => Ok (normpath name)).

(** Lines 22-35. *)
Definition make_subset_line (filenames : gset string) (j : record) (todo : gset string)
    : result (gset string * option record) :=
  let train := training_data j in
  let train_keys := (map_to_list train).*1 in
  bind (getitems train train_keys) (fun cols =>
  bind (rows_loop (obj_name train_keys) filenames (zip_star cols) (todo, [])) (fun st =>
  Ok (st.1, emit j train_keys st.2))).

Definition make_subset (tar_names : list string) (lines : list record) : pass :=
  let filenames : gset string :=
    list_to_set (normpath <$> filter (fun name => endswith name ".flac" = true) tar_names) in
  let todo := filenames in
  lines_loop (make_subset_line filenames) lines todo.

End MakeSubset.

(** *** [prepare.py]: [json_count_clips] *)

(** Lines 89-95: the running total of the lengths of the [name] columns;
    a line without the column ends the count with [KeyError]. *)
Fixpoint count_clips (lines : list record) (total : nat) : result nat :=
  match lines with
  | [] => Ok total
  | j :: lines =>
      bind (getitem (training_data j) "name")
           (fun names => count_clips lines (total + length names))
  end.

Definition json_count_clips (lines : list record) : result nat :=
  count_clips lines 0.

(** *** The contract of the filter, in the words of the specification *)

(** The values of a column at the positions that survive. *)
Fixpoint select {A : Type} (mask : list bool) (col : list A) : list A :=
  match mask, col with
  | b :: mask, x :: col => if b then x :: select mask col else select mask col
  | _, _ => []
  end.

(** The [name] column of a line. *)
Definition names_of_line (j : record) : list string :=
  default [] (training_data j !! "name").

(** A record keeps the tuples whose name is in the reference set; it is
    dropped when none survives, and otherwise every column in [columns] is
    shortened to the surviving positions. *)
Definition filter_record (keep : string -> bool)
    (columns : gmap string (list string) -> gmap string (list string))
    (j : record) : option record :=
  let mask := keep <$> names_of_line j in
  if existsb id mask
  then Some {| passthrough := passthrough j;
               training_data := select mask <$> columns (training_data j) |}
  else None.

Definition filter_stream (keep : string -> bool)
    (columns : gmap string (list string) -> gmap string (list string))
    (lines : list record) : list record :=
  omap (filter_record keep columns) lines.

(** The columns named in [keys]. *)
Definition only (keys : list string) (train : gmap string (list string))
    : gmap string (list string) :=
  filter (fun kv => kv.1 ∈ keys) train.

(** The names of a stream that the reference set matches, in stream order
    and as they are compared, that is after [norm]. *)
Definition matched (norm : string -> string) (filenames : gset string)
    (lines : list record) : list string :=
  filter (fun name => name ∈ filenames) (norm <$> concat (names_of_line <$> lines)).

(** A record whose columns all have one length. *)
Definition equal_columns (j : record) : Prop :=
  exists n, forall k col, training_data j !! k = Some col -> length col = n.

(** A record whose columns all have one length and include [keys]. *)
Definition aligned (keys : list string) (j : record) : Prop :=
  (forall k, k ∈ keys -> is_Some (training_data j !! k)) /\ equal_columns j.

(** The names of [ns] that the reference set matches can all be removed
    from [todo]: they are distinct and still there. *)
Definition removable (filenames : gset string) (ns : list string) (todo : gset string) : Prop :=
  NoDup (filter (fun n => n ∈ filenames) ns)
  /\ forall n, n ∈ ns -> n ∈ filenames -> n ∈ todo.

(** [aligned], as a test that can be run on a given record. *)
Definition check_aligned (keys : list string) (j : record) : bool :=
  bool_decide (Forall (fun k => is_Some (training_data j !! k)) keys)
  && bool_decide (map_Forall (fun _ col => length col = length (names_of_line j))
                    (training_data j)).

(** The test of the filter on a name as it stands in the metadata. *)
Definition in_reference (norm : string -> string) (filenames : gset string)
    (raw : string) : bool :=
  bool_decide (norm raw ∈ filenames).

(** What one line does, in terms of the contract: when the names it
    matches can be removed it gives the filtered record, and otherwise it
    raises [KeyError] on a name of the reference set. *)
Definition line_spec (filenames : gset string) (norm : string -> string)
    (columns : gmap string (list string) -> gmap string (list string))
    (line : record -> gset string -> result (gset string * option record))
    (j : record) : Prop :=
  forall todo,
    (removable filenames (norm <$> names_of_line j) todo ->
     line j todo
     = Ok (todo ∖ list_to_set (filter (fun n => n ∈ filenames) (norm <$> names_of_line j)),
           filter_record (in_reference norm filenames) columns j))
    /\ (~ removable filenames (norm <$> names_of_line j) todo ->
        exists k, k ∈ filenames /\ line j todo = Raise (KeyError k)).

(** The reference set of [make_subset], line 15. *)
Definition flac_names (normpath : string -> string) (tar_names : list string) : gset string :=
  list_to_set (normpath <$> filter (fun name => endswith name ".flac" = true) tar_names).

End Subset.

(** ** The manifest *)

Module Manifest.

(** ['by_sa' in name] *)
Definition contains (sub s : string) : bool :=
  bool_decide (is_Some (String.index 0 sub s)).

(** [name.rsplit('_', 1)[-1]]: what follows the last separator, the whole
    string when there is none. *)
Fixpoint rsplit_last (sep : ascii) (s : string) : string :=
  match s with
  | EmptyString => EmptyString
  | String a rest =>
      if contains (String sep EmptyString) rest then rsplit_last sep rest
      else if Ascii.eqb a sep then rest else s
  end.

Definition rename_split (name : string) : string :=
  let by_sa := contains "by_sa" name in
  let name := rsplit_last "_"%char name in
  if by_sa then name +:+ "_sa" else name.

Definition SPLIT_MAX : Z := 100 * 1024 * 1024.
Definition SPLITS : list string := ["cc_by_clean"; "cc_by_dirty"; "cc_by_sa_clean"; "cc_by_sa_dirty"].
Definition RENAMES : list (string * string) := map (fun name => (name, rename_split name)) SPLITS.

(** [dir / name] *)
Definition joinpath (dir name : string) : string := dir +:+ "/" +:+ name.

Record split_manifest : Type := {
  json_full : string;
  json_first : string;
  tars : list string;
  hashes : gmap string string
}.

(** [os.path.relpath(path, start)] for a path below [start]; other paths are
    outside the repository and are left alone here. *)
Definition relpath (path start : string) : string :=
  let prefix := start +:+ "/" in
  if String.prefix prefix path
  then String.substring (String.length prefix) (String.length path - String.length prefix) path
  else path.

Section BuildManifest.

(** The file system as the script sees it: the entries of a directory in
    the order [Path.iterdir] returns them, which the operating system
    chooses, and the digest of the file at a path. *)
Variable iterdir : string -> list string.
Variable hash_path : string -> string.

(** Lines 133-146. *)
Definition build_split (repo_dir data_dir split : string) : split_manifest :=
  let norm_path := fun path => relpath path repo_dir in
  let json_path := joinpath data_dir (split +:+ ".json") in
  let json0_path := joinpath data_dir (split +:+ "_000000.json") in
  let split_path := joinpath data_dir split in
  let names := iterdir split_path in
  let hashes :=
    foldl (fun hashes name => <[norm_path name := hash_path name]> hashes) ∅
      (names ++ [json_path; json0_path]) in
  {| json_full := norm_path json_path;
     json_first := norm_path json0_path;
     tars := norm_path <$> names;
     hashes := hashes |}.

(** [manifest["splits"]] after the loop of [build_manifest]. *)
Definition build_manifest (repo_dir data_dir : string) : gmap string split_manifest :=
  foldl (fun splits split => <[split := build_split repo_dir data_dir split]> splits) ∅
    (RENAMES.*2).

End BuildManifest.

End Manifest.

(** ** The index of [prepare_repo.py] *)

Module Index.
Import Subset Manifest.

Record split_data : Type := {
  json_full : string;
  json_0 : string;
  tars : list string
}.

(** The rows of [splits] in [build_index]: the name in the index, the
    directory of the split and the name of its files. *)
Definition splits : list (string * string * string) :=
  [("train-clean", "train", "clean");
   ("train-clean-sa", "train", "clean_sa");
   ("train-dirty", "train", "dirty");
   ("train-dirty-sa", "train", "dirty_sa");
   ("dev", "dev", "dev");
   ("test", "test", "test")].

Section BuildIndex.

(** [os.path.normpath], and the file system as the script sees it: whether a
    path exists, the entries of a directory in the order [Path.iterdir]
    returns them, the member names of an archive, and the parsed lines of a
    metadata file. *)
Variable normpath : string -> string.
Variable path_exists : string -> bool.
Variable iterdir : string -> list string.
Variable getnames : string -> list string.
Variable read_lines : string -> list record.

(** Lines 62-66: the entries of the archive directory that end in [.tar],
    sorted as Python sorts strings. *)
Definition sorted_tars (split_dir json_name : string) : list string :=
  let tar_dir := joinpath split_dir json_name in
  let tar_dir := if path_exists tar_dir then tar_dir else split_dir in
  let tars := filter (fun name => endswith name ".tar" = true) (iterdir tar_dir) in
  merge_sort String.le tars.

(** Lines 57-72, for one row of [splits]: [make_subset] runs first, and an
    exception it raises ends [build_index]. *)
Definition build_index_split (repo_dir : string) (row : string * string * string)
    : result split_data :=
  let split_dir := joinpath repo_dir row.1.2 in
  let json_name := row.2 in
  let json_path := joinpath split_dir (json_name +:+ ".json") in
  let json0_path := joinpath split_dir (json_name +:+ "_000000.json") in
  let first_tar := joinpath (joinpath split_dir json_name) (json_name +:+ "_000000.tar") in
  match raised (make_subset normpath (getnames first_tar) (read_lines json_path)) with
  | Some e => Raise e
  | None =>
      Ok {| json_full := relpath json_path repo_dir;
            json_0 := relpath json0_path repo_dir;
            tars := (fun name => relpath name repo_dir) <$> sorted_tars split_dir json_name |}
  end.

(** The loop of [build_index]: [index['splits']] as the list of its items
    in insertion order, or the exception that ended the loop. *)
Fixpoint index_loop (repo_dir : string) (rows : list (string * string * string))
    : result (list (string * split_data)) :=
  match rows with
  | [] => Ok []
  | row :: rows =>
      bind (build_index_split repo_dir row) (fun split_data =>
      bind (index_loop repo_dir rows) (fun items => Ok ((row.1.1, split_data) :: items)))
  end.

Definition build_index (repo_dir : string) : result (list (string * split_data)) :=
  index_loop repo_dir splits.

End BuildIndex.

End Index.

(** ** The command line of [tarsplit.py] *)

Module Cli.
Import Subset.

(** [{c: 1024 ** i for i, c in enumerate('BKMGT')}], in insertion order. *)
Definition suffixes : list (string * Z) :=
  imap (fun i c => (String c EmptyString, 1024 ^ Z.of_nat i)) (list_ascii_of_string "BKMGT").

(** [size[:-1]] *)
Definition drop_last (size : string) : string :=
  String.substring 0 (String.length size - 1) size.

(** The loop over [suffixes.items()]: the first suffix that [size] ends
    with is cut off and gives the coefficient. *)
Fixpoint strip_suffix (size : string) (items : list (string * Z)) : string * Z :=
  match items with
  | [] => (size, 1)
  | (c, cmul) :: items =>
      if endswith size c then (drop_last size, cmul) else strip_suffix size items
  end.

Section ParseSize.

(** The builtin [int] on strings. *)
Variable int : string -> result Z.

Definition parse_size (size : string) : result Z :=
  let stripped := strip_suffix size suffixes in
  bind (int stripped.1) (fun n => Ok (n * stripped.2)).

End ParseSize.

End Cli.

(** ** Reading files in chunks *)

Module Files.

(** [0x10000] *)
Definition CHUNK : nat := Z.to_nat 65536.

(** Lines 172-177 of [do_tar_splits]: read a chunk, stop at the empty one,
    write it.  [f] is what is left of the source file, [o] what has been
    written; a step of the loop costs one unit of [fuel]. *)
Fixpoint copy_loop (fuel : nat) (f o : list Byte.byte) : option (list Byte.byte) :=
  match fuel with
  | O => None
  | S fuel =>
      let chunk := take CHUNK f in
      match chunk with
      | [] => Some o
      | _ :: _ => copy_loop fuel (drop CHUNK f) (o ++ chunk)
      end
  end.

Section HashPath.

(** [hashlib.sha256]: the hex digest of an object that was fed these bytes,
    in any number of updates. *)
Variable sha256_hexdigest : list Byte.byte -> string.

(** Lines 36-40 of [hash_path]: read a chunk, feed it, stop after the empty
    one.  [h] is what the hash object has been fed. *)
Fixpoint hash_loop (fuel : nat) (f h : list Byte.byte) : option (list Byte.byte) :=
  match fuel with
  | O => None
  | S fuel =>
      let chunk := take CHUNK f in
      let h := h ++ chunk in
      match chunk with
      | [] => Some h
      | _ :: _ => hash_loop fuel (drop CHUNK f) h
      end
  end.

Definition hash_path (fuel : nat) (content : list Byte.byte) : option string :=
  sha256_hexdigest <$> hash_loop fuel content [].

End HashPath.

End Files.

(** ** Concrete inputs *)

Module Cases.
Import Tar.

Definition reg (name : string) (size : Z) : TarInfo :=
  {| ti_name := name; ti_size := size; ti_isreg := true; ti_ext_blocks := 0 |}.

Definition dir (name : string) : TarInfo :=
  {| ti_name := name; ti_size := 0; ti_isreg := false; ti_ext_blocks := 0 |}.

(** Two files that fill an archive to the limit, then a directory. *)
Definition dir_at_boundary : list (list TarInfo) :=
  [[reg "a.flac" 1024; reg "b.flac" 1025; dir "sub"]].

(** Two files of whole blocks that reach the limit exactly, then one more. *)
Definition full_blocks : list (list TarInfo) :=
  [[reg "a.flac" 9216; reg "b.flac" 9728; reg "c.flac" 0]].

Definition one_file : list (list TarInfo) := [[reg "a.flac" 1000]].

(** Five files of 10, 90, 10, 90 and 10 bytes, in two source archives. *)
Definition five : list (list TarInfo) :=
  [[reg "1" 10; reg "2" 90; reg "3" 10]; [reg "4" 90; reg "5" 10]].

(** A line with three clips, and what is left of it when the first and
    the third are kept. *)
Definition abc : Subset.record :=
  {| Subset.passthrough := {[ "identifier" := "talk" ]};
     Subset.training_data :=
       list_to_map [("duration_ms", ["1000"; "2000"; "3000"]);
                    ("label", ["x"; "y"; "z"]);
                    ("name", ["a.flac"; "b.flac"; "c.flac"]);
                    ("raw_label", ["X"; "Y"; "Z"])] |}.

Definition abc_ac : Subset.record :=
  {| Subset.passthrough := {[ "identifier" := "talk" ]};
     Subset.training_data :=
       list_to_map [("duration_ms", ["1000"; "3000"]);
                    ("label", ["x"; "z"]);
                    ("name", ["a.flac"; "c.flac"]);
                    ("raw_label", ["X"; "Z"])] |}.

(** A line that names the same clip twice. *)
Definition twice : Subset.record :=
  {| Subset.passthrough := {[ "identifier" := "echo" ]};
     Subset.training_data :=
       list_to_map [("duration_ms", ["1000"; "1000"]);
                    ("label", ["x"; "x"]);
                    ("name", ["a.flac"; "a.flac"]);
                    ("raw_label", ["X"; "X"])] |}.

(** A line with a fifth column. *)
Definition with_speaker : Subset.record :=
  {| Subset.passthrough := {[ "identifier" := "panel" ]};
     Subset.training_data :=
       list_to_map [("duration_ms", ["1000"; "2000"]);
                    ("label", ["x"; "y"]);
                    ("name", ["a.flac"; "b.flac"]);
                    ("raw_label", ["X"; "Y"]);
                    ("speaker", ["ann"; "bob"])] |}.

(** A repository whose directory [data/clean] holds the three archives of
    [five], listed by the operating system in another order than by name. *)
Definition listing (dir : string) : list string :=
  if decide (dir = "repo_out/data/clean")
  then ["repo_out/data/clean/clean_000002.tar";
        "repo_out/data/clean/clean_000000.tar";
        "repo_out/data/clean/clean_000001.tar"]
  else [].

Definition digest (path : string) : string := "sha256 of " +:+ path.

(** The same directory listed by name. *)
Definition listing_by_name (dir : string) : list string :=
  if decide (dir = "repo_out/data/clean")
  then ["repo_out/data/clean/clean_000000.tar";
        "repo_out/data/clean/clean_000001.tar";
        "repo_out/data/clean/clean_000002.tar"]
  else [].

(** The archive directory of the split [train-clean] as [build_index] reads
    it, in the order of the operating system and by name. *)
Definition index_listing (dir : string) : list string :=
  if decide (dir = "repo_out/train/clean")
  then ["repo_out/train/clean/clean_000002.tar";
        "repo_out/train/clean/clean_000000.tar";
        "repo_out/train/clean/notes.txt";
        "repo_out/train/clean/clean_000001.tar"]
  else [].

Definition index_listing_by_name (dir : string) : list string :=
  if decide (dir = "repo_out/train/clean")
  then ["repo_out/train/clean/clean_000000.tar";
        "repo_out/train/clean/clean_000001.tar";
        "repo_out/train/clean/clean_000002.tar";
        "repo_out/train/clean/notes.txt"]
  else [].

(** [int] on strings of decimal digits; anything else is a [ValueError]
    here. *)
Definition int_of_digits (s : string) : Subset.result Z :=
  match s, NilEmpty.uint_of_string s with
  | String _ _, Some d => Subset.Ok (Z.of_uint d)
  | _, _ => Subset.Raise Subset.ValueError
  end.

(** Two files whose names need an extended header: the pax header block and
    one block of records in front of the header block. *)
Definition long_dir : string :=
  "speech/recordings/2021/one-directory-name-that-is-long/and-another-one-below-it/and-a-third-one-to-pass-100-bytes".

Definition long_named (name : string) (size : Z) : TarInfo :=
  {| ti_name := long_dir +:+ "/" +:+ name; ti_size := size; ti_isreg := true;
     ti_ext_blocks := 2 |}.

Definition long_names : list (list TarInfo) :=
  [[long_named "a.flac" 1000; long_named "b.flac" 500]].

End Cases.

(** * Facts *)

Import Tar TarSplit.

(** ** Shard paths *)

Section Paths.

Lemma string_length_app (a b : string) :
  String.length (a +:+ b) = (String.length a + String.length b)%nat.
Proof. induction a as [|c a IH]; simpl; [done | by rewrite IH]. Qed.






End Paths.

(** ** The resharding loop *)

Section Pull.

Variables (dst name : string) (target_size : Z).

Local Abbreviation run := (pull dst name target_size).

Local Arguments open_shard : simpl never.
Local Arguments addfile : simpl never.

Lemma addfile_path (tf : TarFile) (m : member) : tf_path (addfile tf m) = tf_path tf.
Proof. done. Qed.

Lemma addfile_members (tf : TarFile) (m : member) :
  tf_members (addfile tf m) = tf_members tf ++ [m].
Proof. done. Qed.

Lemma open_shard_path (n : nat) (pending : option member) :
  tf_path (open_shard dst name n pending) = out_path dst name n.
Proof. by destruct pending as [[info [fo|]]|]. Qed.

Lemma open_shard_members_reader (n : nat) (m : member) :
  is_Some (snd m) -> tf_members (open_shard dst name n (Some m)) = [m].
Proof. destruct m as [info [fo|]]; [done | by intros [? ?]]. Qed.

Lemma open_shard_members (n : nat) (m : member) :
  tf_members (open_shard dst name n (Some m)) = carried m.
Proof. by destruct m as [info [fo|]]. Qed.

Lemma data_size_app (a b : list member) :
  data_size (a ++ b) = data_size a + data_size b.
Proof. induction a as [|m a IH]; simpl; [done|]. rewrite IH. lia. Qed.

Lemma open_shard_offset (n : nat) (pending : option member) :
  tf_offset (open_shard dst name n pending)
  = data_size (tf_members (open_shard dst name n pending)).
Proof. destruct pending as [[info [fo|]]|]; simpl; try done. lia. Qed.

(** The events of a run are the events of its archives, one archive after
    the other. *)
Lemma pull_events (es : list member) (n : nat) (tf : TarFile) :
  tf_path tf = out_path dst name n ->
  run es n tf = flat_map shard_events (omap closed_of (run es n tf)).
Proof.
  revert n tf. induction es as [|m es IH]; intros n tf Hp; simpl.
  - by rewrite Hp.
  - destruct (tf_offset tf + framed m >? target_size); simpl.
    + rewrite Hp. do 2 f_equal. apply IH, open_shard_path.
    + apply IH. by rewrite addfile_path.
Qed.

(** The archives are a greedy cut of the stream. *)
Lemma pull_greedy (es : list member) (n : nat) (tf : TarFile) :
  tf_offset tf = data_size (tf_members tf) ->
  greedy target_size (tf_members tf) (omap closed_of (run es n tf)) es.
Proof.
  revert n tf. induction es as [|m es IH]; intros n tf Hoff; csimpl.
  - exists []. by rewrite app_nil_r.
  - destruct (Z.gtb_spec (tf_offset tf + framed m) target_size) as [Hgt|Hle]; csimpl.
    + exists []. rewrite app_nil_r. repeat split; [done| |].
      * simpl. lia.
      * exists es. split; [done|].
        rewrite <- open_shard_members with (n := S n).
        apply IH, open_shard_offset.
    + specialize (IH n (addfile tf m)).
      rewrite addfile_members in IH.
      destruct (omap closed_of (run es n (addfile tf m))) as [|s ss].
      { exfalso. apply IH. unfold addfile. simpl. rewrite data_size_app. simpl. lia. }
      destruct IH as (pulled & Hm & Ho & Hf & Hb).
      { unfold addfile. simpl. rewrite data_size_app. simpl. lia. }
      exists (m :: pulled). split; [by rewrite Hm, <- app_assoc|].
      split; [done|]. split.
      * simpl. split; [lia|].
        rewrite data_size_app in Hf. simpl in Hf.
        by replace (data_size (tf_members tf) + stored_size m)
          with (data_size (tf_members tf) + (stored_size m + 0)) by lia.
      * destruct (sh_break s) as [b|].
        -- destruct Hb as (Hgt & rest & -> & Hg). split; [done|]. by exists rest.
        -- destruct Hb as [-> ->]. done.
Qed.

(** The archives are numbered from [n] on, without a gap. *)
Lemma pull_paths (es : list member) (n : nat) (tf : TarFile) :
  tf_path tf = out_path dst name n ->
  map sh_path (omap closed_of (run es n tf))
  = map (out_path dst name) (seq n (length (omap closed_of (run es n tf)))).
Proof.
  revert n tf. induction es as [|m es IH]; intros n tf Hp; simpl.
  - by rewrite Hp.
  - destruct (tf_offset tf + framed m >? target_size); simpl.
    + rewrite Hp. f_equal. apply IH, open_shard_path.
    + apply IH. by rewrite addfile_path.
Qed.

(** At least one archive, and at most one more than there are members. *)
Lemma pull_count (es : list member) (n : nat) (tf : TarFile) :
  (1 <= length (omap closed_of (run es n tf)) <= S (length es))%nat.
Proof.
  revert n tf. induction es as [|m es IH]; intros n tf; csimpl; [lia|].
  destruct (tf_offset tf + framed m >? target_size); csimpl.
  - specialize (IH (S n) (open_shard dst name (S n) (Some m))). lia.
  - specialize (IH n (addfile tf m)). lia.
Qed.

(** The archive that is open comes out first, with what it already holds. *)
Lemma pull_first (es : list member) (n : nat) (tf : TarFile) :
  exists s rest more,
    omap closed_of (run es n tf) = s :: rest /\ sh_members s = tf_members tf ++ more.
Proof.
  revert n tf. induction es as [|m es IH]; intros n tf; simpl.
  - exists (close tf None), [], []. by rewrite app_nil_r.
  - destruct (tf_offset tf + framed m >? target_size); simpl.
    + eexists _, _, []. by rewrite app_nil_r.
    + destruct (IH n (addfile tf m)) as (s & rest & more & -> & Hm).
      exists s, rest, (m :: more). split; [done|].
      by rewrite Hm, addfile_members, <- app_assoc.
Qed.

(** When every member comes with a reader, the archives hold the stream. *)
Lemma pull_members (es : list member) (n : nat) (tf : TarFile) :
  Forall (fun m => is_Some (snd m)) es ->
  concat (map sh_members (omap closed_of (run es n tf))) = tf_members tf ++ es.
Proof.
  revert n tf. induction es as [|m es IH]; intros n tf Hes; simpl.
  - done.
  - apply Forall_cons in Hes as [Hm Hes].
    destruct (tf_offset tf + framed m >? target_size); simpl.
    + rewrite IH by done. by rewrite open_shard_members_reader.
    + rewrite IH by done. by rewrite addfile_members, <- app_assoc.
Qed.

(** An archive followed by another one was left through [break], on a
    member that did not fit and that opens the next archive when it has a
    reader. *)
Lemma pull_break (es : list member) (n : nat) (tf : TarFile) (i : nat) (s s' : shard) :
  omap closed_of (run es n tf) !! i = Some s ->
  omap closed_of (run es n tf) !! S i = Some s' ->
  exists m, sh_break s = Some m
            /\ sh_offset s + framed m > target_size
            /\ (is_Some (snd m) -> head (sh_members s') = Some m).
Proof.
  revert n tf i. induction es as [|m es IH]; intros n tf i Hs Hs'; csimpl in *.
  - by destruct i.
  - destruct (Z.gtb_spec (tf_offset tf + framed m) target_size) as [Hgt|Hle]; csimpl in *.
    + destruct i as [|i]; csimpl in *.
      * injection Hs as <-. exists m.
        split; [done|]. split; [simpl; lia|]. intros Hr.
        destruct (pull_first es (S n) (open_shard dst name (S n) (Some m)))
          as (s0 & rest & more & E & Hm).
        rewrite E in Hs'. injection Hs' as <-.
        by rewrite Hm, open_shard_members_reader.
      * by eapply IH.
    + by eapply IH.
Qed.

(** The last archive was left because the stream ran dry. *)
Lemma pull_last (es : list member) (n : nat) (tf : TarFile) (s : shard) :
  last (omap closed_of (run es n tf)) = Some s -> sh_break s = None.
Proof.
  revert n tf. induction es as [|m es IH]; intros n tf; csimpl.
  - by intros [= <-].
  - destruct (tf_offset tf + framed m >? target_size); csimpl; [|by apply IH].
    destruct (pull_first es (S n) (open_shard dst name (S n) (Some m)))
      as (s0 & rest & more & E & _).
    pose proof (IH (S n) (open_shard dst name (S n) (Some m))) as IH'.
    rewrite E in *. by rewrite last_cons_cons.
Qed.

End Pull.



(** ** [resplit_tars] *)

Section Resplit.

Variables (name dst : string) (src : list (list TarInfo)) (split_max : Z).

Lemma open_first_path : tf_path (open_shard dst name 0 None) = out_path dst name 0.
Proof. done. Qed.

Lemma resplit_events :
  resplit_tars name src dst split_max
  = flat_map shard_events (shards name src dst split_max).
Proof. apply pull_events, open_first_path. Qed.

Lemma yielded_events (ss : list shard) :
  omap yielded_of (flat_map shard_events ss) = map sh_path ss.
Proof.
  induction ss as [|s ss IH]; [done|].
  change (flat_map shard_events (s :: ss)) with (shard_events s ++ flat_map shard_events ss).
  unfold shard_events at 1. destruct (sh_break s); csimpl; by rewrite IH.
Qed.

Lemma closed_events (ss : list shard) :
  omap closed_of (flat_map shard_events ss) = ss.
Proof.
  induction ss as [|s ss IH]; [done|].
  change (flat_map shard_events (s :: ss)) with (shard_events s ++ flat_map shard_events ss).
  unfold shard_events at 1. destruct (sh_break s); csimpl; by rewrite IH.
Qed.

Lemma resplit_yielded_paths :
  yielded name src dst split_max = map sh_path (shards name src dst split_max).
Proof. unfold yielded. rewrite resplit_events. apply yielded_events. Qed.


Lemma iter_tars_readers :
  Forall (Forall (fun info => ti_isreg info = true)) src ->
  Forall (fun m : member => is_Some (snd m)) (iter_tars src).
Proof.
  unfold iter_tars. induction 1 as [|a src' Ha _ IH]; csimpl; [done|].
  apply Forall_app. split; [|done].
  unfold tqdm_tar_iter. apply Forall_fmap.
  eapply Forall_impl; [exact Ha|]. intros info Hr. simpl.
  unfold extractfile. rewrite Hr. by eexists.
Qed.

(** With regular files only, the archives hold the entry stream: nothing
    lost, nothing twice, in order, for every [split_max]. *)
Lemma resplit_regular_files_kept :
  Forall (Forall (fun info => ti_isreg info = true)) src ->
  concat (map sh_members (shards name src dst split_max)) = iter_tars src.
Proof.
  intros Hr. unfold shards, resplit_tars.
  rewrite pull_members by by apply iter_tars_readers. done.
Qed.

End Resplit.

(** C1, at the input that breaks it.  [split_max = 4096] is above the
    threshold of the specification, the three members of the source archive
    are two files and a directory, and the directory is the member on which
    archive 0 is closed.  It is carried over without a reader, the guard of
    line 54 skips it, and no archive holds it: the archives contain two
    members, the stream had three. *)
Theorem resplit_drops_carried_directory :
  min_viable Cases.dir_at_boundary < 4096
  /\ (ti_name ∘ fst) <$> iter_tars Cases.dir_at_boundary = ["a.flac"; "b.flac"; "sub"]
  /\ names_of (shards "clean" Cases.dir_at_boundary "out" 4096) = [["a.flac"; "b.flac"]; []]
  /\ concat (map sh_members (shards "clean" Cases.dir_at_boundary "out" 4096))
     <> iter_tars Cases.dir_at_boundary.
Proof. vm_compute. repeat split; try done. Qed.

(** C2, at the input that breaks it.  With [split_max = 20480] archive 0
    receives two files and is closed on the third; its offset is then
    [split_max - 512], the two trailer blocks bring it to 20992 and the fill
    to a whole record to 30720 bytes on disk, more than [split_max]. *)
Theorem resplit_first_shard_exceeds_split_max :
  exists s rest,
    shards "clean" Cases.full_blocks "out" 20480 = s :: rest
    /\ rest <> []
    /\ sh_offset s = 20480 - BLOCKSIZE
    /\ sh_size s = 30720
    /\ 20480 < sh_size s.
Proof. eexists _, _. vm_compute. repeat split; done. Qed.

(** C3, refuted: a [split_max] at or below the threshold is not rejected;
    two archives are written and two paths are yielded. *)
Lemma resplit_small_target_emits_shards :
  1024 <= min_viable Cases.one_file
  /\ yielded "clean" Cases.one_file "out" 1024
     = ["out/clean_000000.tar"; "out/clean_000001.tar"]
  /\ names_of (shards "clean" Cases.one_file "out" 1024) = [[]; ["a.flac"]].
Proof. vm_compute. repeat split; done. Qed.

(** C3, as the code has it: [resplit_tars] does not check [split_max].  For
    a [split_max] that does not exceed the threshold it still runs to the end
    of the stream: it writes at least one archive and at most one more than
    there are members, yields the path of each of them, and, when the members
    are regular files, writes every member once and in order. *)
Theorem resplit_small_target_still_runs (name dst : string) (src : list (list TarInfo))
    (split_max : Z) :
  split_max <= min_viable src ->
  (1 <= length (shards name src dst split_max) <= S (length (iter_tars src)))%nat
  /\ yielded name src dst split_max = map sh_path (shards name src dst split_max)
  /\ (Forall (Forall (fun info => ti_isreg info = true)) src ->
      concat (map sh_members (shards name src dst split_max)) = iter_tars src).
Proof.
  intros _. split; [apply pull_count|].
  split; [apply resplit_yielded_paths | apply resplit_regular_files_kept].
Qed.

Lemma resplit_small_target_still_runs_witness :
  1024 <= min_viable Cases.one_file
  /\ (1 <= length (shards "clean" Cases.one_file "out" 1024) <= 2)%nat.
Proof.
  assert (H : 1024 <= min_viable Cases.one_file) by (vm_compute; discriminate).
  split; [exact H|].
  exact (proj1 (resplit_small_target_still_runs "clean" "out" Cases.one_file 1024 H)).
Defined.

(** C4: the archives are a greedy cut of the entry stream.  Archive 0
    starts empty and every later archive starts from what is carried of the
    member its predecessor was closed on.  From there each archive holds, in
    stream order, every entry that was pulled while it was open, and each of
    them passed the test [tf.offset + 512 + size <= split_max - BLOCKSIZE]
    of line 59 when it was pulled; [tf.offset] is the stored size of the
    members written so far.  An archive is closed in two cases only: the
    stream has no further entry, and the archive is the last one; or the
    very next entry of the stream fails the test against the offset the
    archive has reached, and that entry is what the next archive starts
    from.  So no entry that passes the test is left out of the open archive
    or put off to a later one, and no archive is closed before an entry
    fails the test. *)
Theorem resplit_closes_only_on_overflow (name dst : string) (src : list (list TarInfo))
    (split_max : Z) :
  greedy (split_max - BLOCKSIZE) [] (shards name src dst split_max) (iter_tars src).
Proof.
  exact (pull_greedy dst name (split_max - BLOCKSIZE) (iter_tars src) 0%nat
           (open_shard dst name 0 None) eq_refl).
Qed.

Lemma resplit_closes_only_on_overflow_witness :
  exists s ss m rest,
    shards "clean" Cases.five "out" 2560 = s :: ss
    /\ iter_tars Cases.five = sh_members s ++ m :: rest
    /\ names_of [s] = [["1"; "2"]]
    /\ ti_name (fst m) = "3"
    /\ fits (2560 - BLOCKSIZE) 0 (sh_members s)
    /\ sh_offset s = data_size (sh_members s)
    /\ sh_offset s + framed m > 2560 - BLOCKSIZE
    /\ greedy (2560 - BLOCKSIZE) (carried m) ss rest.
Proof.
  pose proof (resplit_closes_only_on_overflow "clean" "out" Cases.five 2560) as H.
  destruct (shards "clean" Cases.five "out" 2560) as [|s ss] eqn:E; [destruct H|].
  simpl in H. destruct H as (pulled & Hm & Ho & Hf & Hb). subst pulled.
  assert (Hs : s = {| sh_path := "out/clean_000000.tar";
                      sh_members := take 2 (iter_tars Cases.five);
                      sh_offset := 2048;
                      sh_break := iter_tars Cases.five !! 2%nat |}).
  { vm_compute in E. injection E as <- _. vm_compute. reflexivity. }
  destruct (sh_break s) as [m|] eqn:Eb.
  - destruct Hb as (Hgt & rest & Hes & Hg).
    exists s, ss, m, rest.
    assert (Hmm : m = (Cases.reg "3" 10, extractfile (Cases.reg "3" 10))).
    { rewrite Hs in Eb. vm_compute in Eb. injection Eb as <-. vm_compute. reflexivity. }
    repeat split; try done.
    + rewrite Hs. vm_compute. reflexivity.
    + rewrite Hmm. reflexivity.
  - rewrite Hs in Eb. vm_compute in Eb. discriminate.
Defined.

(** C5, refuted: with no source archive, archive 0 is still created and its
    path is yielded. *)
Lemma resplit_empty_source_yields_a_shard :
  yielded "clean" [] "out" Manifest.SPLIT_MAX = ["out/clean_000000.tar"]
  /\ names_of (shards "clean" [] "out" Manifest.SPLIT_MAX) = [[]].
Proof. vm_compute. split; done. Qed.

(** C5, as the code has it: when the entry stream yields no entries,
    [resplit_tars] creates exactly one archive, number 0, without members,
    closes it, yields its path once and ends without an error. *)
Theorem resplit_empty_stream (name dst : string) (src : list (list TarInfo)) (split_max : Z) :
  iter_tars src = [] ->
  resplit_tars name src dst split_max
  = [Closed {| sh_path := out_path dst name 0; sh_members := [];
               sh_offset := 0; sh_break := None |};
     Yielded (out_path dst name 0)].
Proof. intros H. unfold resplit_tars. by rewrite H. Qed.

Lemma resplit_empty_stream_witness :
  resplit_tars "clean" [[]; []] "out" Manifest.SPLIT_MAX
  = [Closed {| sh_path := "out/clean_000000.tar"; sh_members := [];
               sh_offset := 0; sh_break := None |};
     Yielded "out/clean_000000.tar"].
Proof. exact (resplit_empty_stream "clean" "out" [[]; []] Manifest.SPLIT_MAX eq_refl). Defined.

(** C6, refuted: with [split_max = 150] no member passes the test of
    line 59, so archive 0 stays empty and every file gets an archive of its
    own: six archives, not three. *)
Lemma resplit_five_at_150 :
  names_of (shards "clean" Cases.five "out" 150) = [[]; ["1"]; ["2"]; ["3"]; ["4"]; ["5"]].
Proof. vm_compute. reflexivity. Qed.

(** C6, as the code has it: a member costs a 512 byte header and its payload
    filled to whole 512 byte blocks, and 512 bytes are held back.  The five
    files of 10, 90, 10, 90 and 10 bytes go into exactly three archives,
    files 1 and 2, files 3 and 4, and file 5 alone, for every [split_max]
    from 2138 to 3081. *)
Theorem resplit_five_in_three (name dst : string) (split_max : Z) :
  2138 <= split_max <= 3081 ->
  names_of (shards name Cases.five dst split_max) = [["1"; "2"]; ["3"; "4"]; ["5"]].
Proof.
  intros H. unfold shards, resplit_tars, Cases.five, iter_tars. csimpl.
  unfold framed, open_shard, addfile, stored_size, header_size. simpl.
  change (payload_blocks 10) with 1. change (payload_blocks 90) with 1.
  unfold BLOCKSIZE.
  repeat match goal with
         | |- context [ (?a >? ?b)%Z ] =>
             destruct (Z.gtb_spec a b); [try lia | try lia]; csimpl
         end.
  reflexivity.
Qed.

Lemma resplit_five_in_three_witness :
  names_of (shards "clean" Cases.five "out" 2560) = [["1"; "2"]; ["3"; "4"]; ["5"]].
Proof. apply (resplit_five_in_three "clean" "out" 2560). lia. Defined.


(** The run of five files at [split_max = 2560], event by event: archives 0
    and 1 are yielded before they are closed, archive 2 after. *)
Example resplit_five_events :
  match resplit_tars "clean" Cases.five "out" 2560 with
  | [Yielded p0; Closed s0; Yielded p1; Closed s1; Closed s2; Yielded p2] =>
      p0 = "out/clean_000000.tar" /\ sh_path s0 = p0
      /\ p1 = "out/clean_000001.tar" /\ sh_path s1 = p1
      /\ p2 = "out/clean_000002.tar" /\ sh_path s2 = p2
  | _ => False
  end.
Proof. vm_compute. repeat split; reflexivity. Qed.

(** ** Tables: rows, columns and masks *)

Section Tables.

Import Subset.
Local Open Scope nat_scope.

Context {A : Type}.
Implicit Types (mask : list bool) (col row : list A) (cols rows : list (list A)).

Lemma zip_star_cons col c' cols :
  zip_star (col :: c' :: cols) = zip_with cons col (zip_star (c' :: cols)).
Proof. done. Qed.

Lemma zip_star_length cols n :
  cols <> [] -> Forall (fun c => length c = n) cols -> length (zip_star cols) = n.
Proof.
  induction cols as [|c cs IH]; [done|]. intros _ Hall.
  apply Forall_cons in Hall as [Hc Hcs].
  destruct cs as [|c' cs].
  - simpl. by rewrite length_map.
  - rewrite zip_star_cons, length_zip_with, IH; [lia | done | done].
Qed.

Lemma zip_star_singletons (l : list A) :
  l <> [] -> zip_star (map (fun x => [x]) l) = [l].
Proof.
  induction l as [|x l IH]; [done|]. intros _.
  destruct l as [|y l]; [done|].
  change (zip_star (map (fun x => [x]) (x :: y :: l)))
    with (zip_with cons [x] (zip_star (map (fun x => [x]) (y :: l)))).
  by rewrite IH.
Qed.

(** Putting a new first column in front of the rows of a table. *)
Lemma zip_star_zip_cons col rows :
  rows <> [] -> length col = length rows ->
  zip_star (zip_with cons col rows) = col :: zip_star rows.
Proof.
  revert col. induction rows as [|r rows IH]; [done|]. intros col _ Hlen.
  destruct col as [|a col]; [done|]. simpl in Hlen.
  destruct rows as [|r' rows].
  - destruct col; [|done]. done.
  - destruct col as [|a' col]; [done|].
    change (zip_with cons (a :: a' :: col) (r :: r' :: rows))
      with ((a :: r) :: zip_with cons (a' :: col) (r' :: rows)).
    destruct (zip_with cons (a' :: col) (r' :: rows)) as [|z zs] eqn:E; [done|].
    rewrite zip_star_cons, <- E, IH by (done || (simpl in *; lia)).
    done.
Qed.

Lemma select_nil_r mask : select mask (@nil A) = [].
Proof. by destruct mask. Qed.

Lemma select_map {B : Type} (f : A -> B) mask col :
  select mask (map f col) = map f (select mask col).
Proof.
  revert col. induction mask as [|b mask IH]; intros [|x col]; simpl; try done.
  destruct b; simpl; by rewrite IH.
Qed.

Lemma select_length_eq {B : Type} mask col (l : list B) :
  length col = length l -> length (select mask col) = length (select mask l).
Proof.
  revert col l. induction mask as [|b mask IH]; intros [|x col] [|y l] H; simpl in *; try done.
  destruct b; simpl; rewrite (IH col l); (done || lia).
Qed.

Lemma select_nonempty mask col :
  length col = length mask -> existsb id mask = true -> select mask col <> [].
Proof.
  revert col. induction mask as [|b mask IH]; intros [|x col] Hlen Hex; simpl in *; try done.
  destruct b; [done|]. simpl in Hex. apply IH; (done || lia).
Qed.

Lemma select_none mask col : existsb id mask = false -> select mask col = [].
Proof.
  revert col. induction mask as [|b mask IH]; intros [|x col] Hex; simpl in *; try done.
  destruct b; [done|]. by apply IH.
Qed.

Lemma select_app mask1 mask2 col1 col2 :
  length mask1 = length col1 ->
  select (mask1 ++ mask2) (col1 ++ col2) = select mask1 col1 ++ select mask2 col2.
Proof.
  revert col1. induction mask1 as [|b mask1 IH]; intros [|x col1] H; simpl in *; try done.
  destruct b; simpl; rewrite IH; (done || lia).
Qed.

End Tables.

Section Transpose.

Import Subset.
Local Open Scope nat_scope.

Context {A : Type}.

Lemma select_zip_cons (mask : list bool) (col : list A) (rows : list (list A)) :
  select mask (zip_with cons col rows) = zip_with cons (select mask col) (select mask rows).
Proof.
  revert col rows. induction mask as [|b mask IH]; intros [|x col] [|r rows]; simpl; try done.
  - destruct b; [done|]. by destruct (select mask col).
  - destruct b; simpl; by rewrite IH.
Qed.

(** Keeping some rows of a table and reading the columns again gives every
    column at the kept positions, as long as one row is kept. *)
Lemma zip_star_select (mask : list bool) (cols : list (list A)) :
  cols <> [] ->
  Forall (fun c => length c = length mask) cols ->
  existsb id mask = true ->
  zip_star (select mask (zip_star cols)) = map (select mask) cols.
Proof.
  intros Hne Hall Hex. induction cols as [|c cs IH]; [done|].
  apply Forall_cons in Hall as [Hc Hcs].
  destruct cs as [|c' cs].
  - simpl. rewrite select_map. rewrite zip_star_singletons; [done|].
    by apply select_nonempty.
  - rewrite zip_star_cons, select_zip_cons.
    assert (Hrows : length (zip_star (c' :: cs)) = length mask)
      by by apply zip_star_length.
    rewrite zip_star_zip_cons.
    + rewrite IH by done. done.
    + by apply select_nonempty.
    + apply select_length_eq. by rewrite Hrows.
Qed.

Lemma zip_cons_row_length (col : list A) (rows : list (list A)) (k : nat) :
  Forall (fun row => length row = k) rows ->
  Forall (fun row => length row = S k) (zip_with cons col rows).
Proof.
  intros H. revert col. induction H as [|r rows Hr _ IH]; intros [|x col]; simpl; try done.
  constructor; [simpl; lia | apply IH].
Qed.

(** Every row has one value per column. *)
Lemma zip_star_row_length (cols : list (list A)) :
  Forall (fun row => length row = length cols) (zip_star cols).
Proof.
  induction cols as [|c cs IH]; [done|].
  destruct cs as [|c' cs].
  - simpl. induction c; simpl; constructor; auto.
  - rewrite zip_star_cons. by apply zip_cons_row_length.
Qed.

Lemma zip_cons_head (col : list A) (rows : list (list A)) :
  length col = length rows ->
  Forall2 (fun row x => row !! 0 = Some x) (zip_with cons col rows) col.
Proof.
  revert rows. induction col as [|x col IH]; intros [|r rows] H; simpl in *; try done.
  constructor; [done | apply IH; lia].
Qed.

Lemma zip_cons_tail (col : list A) (rows : list (list A)) (j : nat) (ys : list A) :
  length col = length rows ->
  Forall2 (fun row y => row !! j = Some y) rows ys ->
  Forall2 (fun row y => row !! S j = Some y) (zip_with cons col rows) ys.
Proof.
  intros Hlen H. revert col Hlen.
  induction H as [|r y rows ys Hr _ IH]; intros [|x col] Hlen; simpl in *; try done.
  constructor; [done | apply IH; lia].
Qed.

(** Column [j] of a table, read off its rows. *)
Lemma zip_star_column (cols : list (list A)) (n j : nat) (col : list A) :
  Forall (fun c => length c = n) cols ->
  cols !! j = Some col ->
  Forall2 (fun row x => row !! j = Some x) (zip_star cols) col.
Proof.
  revert j. induction cols as [|c cs IH]; intros j Hall Hj; [done|].
  apply Forall_cons in Hall as [Hc Hcs].
  destruct cs as [|c' cs].
  - destruct j as [|j]; [|done]. injection Hj as ->. simpl.
    clear. induction col; simpl; constructor; auto.
  - rewrite zip_star_cons.
    assert (Hrows : length (zip_star (c' :: cs)) = n) by by apply zip_star_length.
    destruct j as [|j]; simpl in Hj.
    + injection Hj as ->. apply zip_cons_head. by rewrite Hrows.
    + apply zip_cons_tail; [by rewrite Hrows | by apply IH].
Qed.

End Transpose.

(** ** The subset filter *)

Section Removable.

Import Subset.

Variable filenames : gset string.

Local Abbreviation removable := (Subset.removable filenames).

Lemma removable_cons_in (n : string) (ns : list string) (todo : gset string) :
  n ∈ filenames ->
  removable (n :: ns) todo <-> n ∈ todo /\ removable ns (todo ∖ {[n]}).
Proof.
  intros Hn. unfold Subset.removable. rewrite filter_cons_True by done.
  rewrite NoDup_cons, list_elem_of_filter. split.
  - intros [[Hnot Hnd] Hin]. split; [apply Hin; [left|done]|].
    split; [done|]. intros n' Hn' Hf. apply elem_of_difference. split.
    + apply Hin; [by right|done].
    + intros ->%elem_of_singleton. by apply Hnot.
  - intros [Ht [Hnd Hin]]. split; [split; [|done]|].
    + intros [Hf Hns]. specialize (Hin n Hns Hf). set_solver.
    + intros n' [->|Hn']%elem_of_cons Hf; [done|].
      specialize (Hin n' Hn' Hf). set_solver.
Qed.

Lemma removable_cons_out (n : string) (ns : list string) (todo : gset string) :
  n ∉ filenames -> removable (n :: ns) todo <-> removable ns todo.
Proof.
  intros Hn. unfold Subset.removable. rewrite filter_cons_False by done.
  split; intros [Hnd Hin]; (split; [done|]).
  - intros n' Hn'. apply Hin. by right.
  - intros n' [->|Hn']%elem_of_cons Hf; [done | by apply Hin].
Qed.

End Removable.

Section Rows.

Import Subset.
Local Open Scope nat_scope.

Variables (name_of : list string -> result string) (filenames : gset string).

Local Abbreviation removable := (Subset.removable filenames).

Lemma rows_loop_ok (rows : list (list string)) (ns : list string) (st : scan) :
  Forall2 (fun r n => name_of r = Ok n) rows ns ->
  removable ns st.1 ->
  rows_loop name_of filenames rows st
  = Ok (st.1 ∖ list_to_set (filter (fun n => n ∈ filenames) ns),
        st.2 ++ select ((fun n => bool_decide (n ∈ filenames)) <$> ns) rows).
Proof.
  intros H. revert st. induction H as [|r n rows ns Hr _ IH]; intros [todo valid] Hrm; simpl.
  - f_equal. f_equal; [set_solver | by rewrite app_nil_r].
  - rewrite Hr. simpl. unfold take. simpl.
    destruct (decide (n ∈ filenames)) as [Hn|Hn].
    + apply removable_cons_in in Hrm as [Ht Hrm]; [|done].
      rewrite decide_True by done. simpl.
      rewrite IH by done. simpl.
      rewrite filter_cons_True by done. rewrite bool_decide_eq_true_2 by done.
      f_equal. f_equal; [set_solver | by rewrite <- app_assoc].
    + apply removable_cons_out in Hrm; [|done]. simpl.
      rewrite IH by done. simpl.
      rewrite filter_cons_False by done. by rewrite bool_decide_eq_false_2 by done.
Qed.

Lemma rows_loop_raise (rows : list (list string)) (ns : list string) (st : scan) :
  Forall2 (fun r n => name_of r = Ok n) rows ns ->
  ~ removable ns st.1 ->
  exists k, k ∈ filenames /\ rows_loop name_of filenames rows st = Raise (KeyError k).
Proof.
  intros H. revert st. induction H as [|r n rows ns Hr _ IH]; intros [todo valid] Hrm; simpl.
  - destruct Hrm. split; [constructor | by intros n ?%elem_of_nil].
  - rewrite Hr. simpl. unfold take. simpl.
    destruct (decide (n ∈ filenames)) as [Hn|Hn].
    + destruct (decide (n ∈ todo)) as [Ht|Ht]; simpl.
      * apply IH. simpl. intros Hrest. apply Hrm.
        by apply removable_cons_in.
      * by exists n.
    + simpl. apply IH. simpl. intros Hrest. apply Hrm. by apply removable_cons_out.
Qed.

End Rows.

Section Lines.

Import Subset.
Local Open Scope nat_scope.

Variables (filenames : gset string) (norm : string -> string).
Variable columns : gmap string (list string) -> gmap string (list string).
Variable line : record -> gset string -> result (gset string * option record).

Local Abbreviation removable := (Subset.removable filenames).
Local Abbreviation keep := (in_reference norm filenames).
Local Abbreviation hits := (fun ns => filter (fun n => n ∈ filenames) ns).

Lemma removable_dec (ns : list string) (todo : gset string) :
  removable ns todo \/ ~ removable ns todo.
Proof.
  unfold Subset.removable.
  destruct (decide (NoDup (hits ns))) as [Hnd|Hnd]; [|right; tauto].
  destruct (decide (Forall (fun n => n ∈ filenames -> n ∈ todo) ns)) as [Hall|Hall].
  - left. split; [done|]. rewrite Forall_forall in Hall. exact Hall.
  - right. intros [_ Hin]. apply Hall. rewrite Forall_forall. exact Hin.
Qed.

Lemma removable_app (ns ns' : list string) (todo : gset string) :
  removable (ns ++ ns') todo
  <-> removable ns todo /\ removable ns' (todo ∖ list_to_set (hits ns)).
Proof.
  revert todo. induction ns as [|n ns IH]; intros todo.
  - assert (E : todo ∖ list_to_set (hits []) = todo) by set_solver.
    rewrite E, app_nil_l. split; [|by intros [_ ?]]. intros H. split; [|done].
    split; [constructor | by intros n ?%elem_of_nil].
  - rewrite <- app_comm_cons.
    destruct (decide (n ∈ filenames)) as [Hn|Hn].
    + rewrite (removable_cons_in filenames n (ns ++ ns')) by done.
      rewrite (removable_cons_in filenames n ns) by done.
      rewrite IH. rewrite filter_cons_True by done.
      replace (todo ∖ list_to_set (n :: hits ns))
        with (todo ∖ {[n]} ∖ list_to_set (hits ns)) by set_solver.
      tauto.
    + rewrite (removable_cons_out filenames n (ns ++ ns')) by done.
      rewrite (removable_cons_out filenames n ns) by done.
      rewrite IH. by rewrite filter_cons_False by done.
Qed.

Lemma removable_all (ns : list string) :
  removable ns filenames <-> NoDup (hits ns).
Proof. unfold Subset.removable. split; [by intros [? _] | by split]. Qed.

Local Abbreviation line_spec := (Subset.line_spec filenames norm columns line).

Lemma matched_cons (j : record) (lines : list record) :
  matched norm filenames (j :: lines)
  = hits (norm <$> names_of_line j) ++ matched norm filenames lines.
Proof. unfold matched. csimpl. by rewrite fmap_app, filter_app. Qed.

Lemma lines_loop_ok (lines : list record) (todo : gset string) :
  Forall line_spec lines ->
  removable (norm <$> concat (names_of_line <$> lines)) todo ->
  lines_loop line lines todo
  = {| written := filter_stream keep columns lines;
       missing := report (todo ∖ list_to_set (matched norm filenames lines));
       raised := None |}.
Proof.
  intros H. revert todo. induction H as [|j lines Hj _ IH]; intros todo Hrm; csimpl.
  - f_equal. f_equal. set_solver.
  - csimpl in Hrm. rewrite fmap_app in Hrm. apply removable_app in Hrm as [Hrm Hrest].
    destruct (Hj todo) as [Hok _]. rewrite (Hok Hrm).
    rewrite (IH _ Hrest). simpl. rewrite matched_cons.
    f_equal.
    + unfold filter_stream. csimpl. by destruct (filter_record _ _ j).
    + f_equal. set_solver.
Qed.

Lemma lines_loop_raise (lines : list record) (todo : gset string) :
  Forall line_spec lines ->
  ~ removable (norm <$> concat (names_of_line <$> lines)) todo ->
  exists pre j post k,
    lines = pre ++ j :: post
    /\ k ∈ filenames
    /\ lines_loop line lines todo
       = {| written := filter_stream keep columns pre;
            missing := None;
            raised := Some (KeyError k) |}.
Proof.
  intros H. revert todo. induction H as [|j lines Hj _ IH]; intros todo Hrm; csimpl.
  - destruct Hrm. split; [constructor | by intros n ?%elem_of_nil].
  - csimpl in Hrm. rewrite fmap_app in Hrm.
    destruct (Hj todo) as [Hok Hraise].
    destruct (removable_dec (norm <$> names_of_line j) todo) as [Hgood|Hbad].
    + rewrite (Hok Hgood).
      destruct (IH (todo ∖ list_to_set (hits (norm <$> names_of_line j))))
        as (pre & j' & post & k & -> & Hk & E).
      { intros Hrest. apply Hrm. apply removable_app. by split. }
      exists (j :: pre), j', post, k. split; [done|]. split; [done|].
      rewrite E. simpl. f_equal.
      unfold filter_stream. csimpl. by destruct (filter_record _ _ j).
    + destruct (Hraise Hbad) as (k & Hk & E). rewrite E.
      by exists [], j, lines, k.
Qed.

End Lines.

Section OneLine.

Import Subset.
Local Open Scope nat_scope.

Variables (name_of : list string -> result string) (filenames : gset string).
Variable norm : string -> string.
Variables (j : record) (keys : list string).
Variables (cols : list (list string)) (names : list string).

Hypothesis cols_nonempty : cols <> [].
Hypothesis cols_length : Forall (fun c => length c = length names) cols.
Hypothesis rows_names :
  Forall2 (fun row raw => name_of row = Ok (norm raw)) (zip_star cols) names.

Local Abbreviation keep := (in_reference norm filenames).

(** The inner loop and the lines after it, for a table with a name per
    row: the rows whose name is in the set are kept, and the columns read
    back from them are the columns at the kept positions. *)
Lemma rows_then_emit_ok (todo : gset string) :
  removable filenames (norm <$> names) todo ->
  bind (rows_loop name_of filenames (zip_star cols) (todo, []))
       (fun st => Ok (st.1, emit j keys st.2))
  = Ok (todo ∖ list_to_set (filter (fun n => n ∈ filenames) (norm <$> names)),
        if existsb id (keep <$> names)
        then Some {| passthrough := passthrough j;
                     training_data := dict (zip keys (select (keep <$> names) <$> cols)) |}
        else None).
Proof.
  intros Hrm.
  rewrite (rows_loop_ok name_of filenames (zip_star cols) (norm <$> names)); [| |done].
  2: { apply Forall2_fmap_r. exact rows_names. }
  simpl. rewrite <- list_fmap_compose.
  change ((fun n => bool_decide (n ∈ filenames)) ∘ norm) with (in_reference norm filenames).
  assert (Hrows : length (zip_star cols) = length names) by by apply zip_star_length.
  destruct (existsb id (keep <$> names)) eqn:Hex.
  - assert (Hne : select (keep <$> names) (zip_star cols) <> []).
    { apply select_nonempty; [by rewrite length_fmap | done]. }
    unfold emit.
    destruct (select (keep <$> names) (zip_star cols)) as [|v vs] eqn:E; [done|].
    rewrite <- E, zip_star_select; [done | done | | done].
    eapply Forall_impl; [exact cols_length|]. intros c Hc. by rewrite length_fmap.
  - by rewrite select_none.
Qed.

Lemma rows_then_emit_raise (todo : gset string) :
  ~ removable filenames (norm <$> names) todo ->
  exists k,
    k ∈ filenames
    /\ bind (rows_loop name_of filenames (zip_star cols) (todo, []))
            (fun st => Ok (st.1, emit j keys st.2))
       = Raise (KeyError k).
Proof.
  intros Hrm.
  destruct (rows_loop_raise name_of filenames (zip_star cols) (norm <$> names) (todo, []))
    as (k & Hk & E); [|done|].
  - apply Forall2_fmap_r. exact rows_names.
  - exists k. by rewrite E.
Qed.

End OneLine.

Section Dicts.

Import Subset.
Local Open Scope nat_scope.

Context {V : Type}.

(** With distinct keys, [dict] is the map of the pairs. *)
Lemma dict_list_to_map (pairs : list (string * V)) :
  NoDup (pairs.*1) -> dict pairs = list_to_map pairs.
Proof.
  unfold dict. induction pairs as [|[k v] pairs IH] using rev_ind; [done|].
  rewrite fmap_app, NoDup_app. intros (Hnd & Hdisj & _).
  rewrite foldl_snoc, IH by done. simpl.
  rewrite list_to_map_snoc; [done|].
  intros Hk. apply (Hdisj k Hk). simpl. by left.
Qed.

Lemma dict_zip_lookup (keys : list string) (row : list V) (i : nat) (k : string) (x : V) :
  NoDup keys -> length row = length keys ->
  keys !! i = Some k -> row !! i = Some x ->
  dict (zip keys row) !! k = Some x.
Proof.
  intros Hnd Hlen Hk Hx.
  assert (Hfst : (zip keys row).*1 = keys) by (apply fst_zip; lia).
  rewrite dict_list_to_map by by rewrite Hfst.
  apply elem_of_list_to_map_1; [by rewrite Hfst|].
  apply list_elem_of_lookup. exists i.
  rewrite lookup_zip_with, Hk. simpl. by rewrite Hx.
Qed.

Lemma zip_fst_snd_fmap {B : Type} (f : V -> B) (l : list (string * V)) :
  zip (l.*1) (f <$> l.*2) = prod_map id f <$> l.
Proof. induction l as [|[k v] l IH]; [done|]. csimpl. by rewrite IH. Qed.

Lemma getitems_map_to_list (m : gmap string V) :
  getitems m ((map_to_list m).*1) = Ok ((map_to_list m).*2).
Proof.
  assert (H : Forall (fun kv => m !! kv.1 = Some kv.2) (map_to_list m)).
  { apply Forall_forall. intros [k v] Hkv. by apply elem_of_map_to_list. }
  induction H as [|[k v] l Hkv _ IH]; [done|]. csimpl in *.
  unfold getitem. rewrite Hkv. simpl. by rewrite IH.
Qed.

End Dicts.

Section LineOfBuildSubsets.

Import Subset.
Local Open Scope nat_scope.

Lemma unpack_rows (d l nm r : list string) (n : nat) :
  Forall (fun c => length c = n) [d; l; nm; r] ->
  Forall2 (fun row raw => unpack_name row = Ok (id raw)) (zip_star [d; l; nm; r]) nm.
Proof.
  intros Hall.
  pose proof (zip_star_column [d; l; nm; r] n 2 nm Hall eq_refl) as Hcol.
  pose proof (zip_star_row_length [d; l; nm; r]) as Hlen.
  clear Hall. revert Hcol Hlen. generalize (zip_star [d; l; nm; r]) as rows.
  intros rows Hcol. induction Hcol as [|row x rows xs Hx _ IH]; intros Hlen; [constructor|].
  apply Forall_cons in Hlen as [Hrow Hlen].
  constructor; [|by apply IH].
  destruct row as [|a [|b [|c [|e [|? ?]]]]]; simpl in *; try done.
  by injection Hx as ->.
Qed.

Lemma only_lookup_in (keys : list string) (train : gmap string (list string)) (k : string) :
  k ∈ keys -> only keys train !! k = train !! k.
Proof.
  intros Hk. unfold only. destruct (train !! k) as [col|] eqn:E.
  - by apply map_lookup_filter_Some_2.
  - apply map_lookup_filter_None_2. by left.
Qed.

Lemma only_lookup_out (keys : list string) (train : gmap string (list string)) (k : string) :
  k ∉ keys -> only keys train !! k = None.
Proof.
  intros Hk. unfold only. apply map_lookup_filter_None_2. right. by intros col _.
Qed.

Lemma only_train_keys (train : gmap string (list string)) (f : list string -> list string)
    (d l nm r : list string) :
  train !! "duration_ms" = Some d -> train !! "label" = Some l ->
  train !! "name" = Some nm -> train !! "raw_label" = Some r ->
  dict (zip train_keys (f <$> [d; l; nm; r])) = f <$> only train_keys train.
Proof.
  intros Hd Hl Hnm Hr. apply map_eq. intros k. rewrite lookup_fmap.
  destruct (decide (k ∈ train_keys)) as [Hin|Hout].
  - rewrite only_lookup_in by done. unfold dict, train_keys in *. simpl.
    apply elem_of_cons in Hin as [E|Hin]; [subst k; rewrite Hd; by simplify_map_eq|].
    apply elem_of_cons in Hin as [E|Hin]; [subst k; rewrite Hl; by simplify_map_eq|].
    apply elem_of_cons in Hin as [E|Hin]; [subst k; rewrite Hnm; by simplify_map_eq|].
    apply elem_of_cons in Hin as [E|Hin]; [subst k; rewrite Hr; by simplify_map_eq|].
    by apply elem_of_nil in Hin.
  - rewrite only_lookup_out by done. unfold dict, train_keys in *. simpl.
    rewrite !lookup_insert_ne; [done | ..]; intros <-; apply Hout; set_solver.
Qed.

Lemma build_subsets_line_spec (filenames : gset string) (j : record) :
  aligned train_keys j ->
  line_spec filenames id (only train_keys) (build_subsets_line filenames) j.
Proof.
  intros [Hk [n Hn]] todo.
  destruct (Hk "duration_ms") as [d Hd]; [set_solver|].
  destruct (Hk "label") as [l Hl]; [set_solver|].
  destruct (Hk "name") as [nm Hnm]; [set_solver|].
  destruct (Hk "raw_label") as [r Hr]; [set_solver|].
  assert (Hall : Forall (fun c => length c = length nm) [d; l; nm; r]).
  { rewrite (Hn _ _ Hnm). repeat constructor; eauto. }
  assert (Hcols : getitems (training_data j) train_keys = Ok [d; l; nm; r]).
  { unfold train_keys, getitems, getitem. by rewrite Hd, Hl, Hnm, Hr. }
  unfold build_subsets_line, filter_record, names_of_line.
  rewrite Hnm.
  split; intros Hrm; rewrite Hcols; simpl in *.
  - rewrite (rows_then_emit_ok unpack_name filenames id j train_keys [d; l; nm; r] nm);
      [| done | done | by eapply unpack_rows | done].
    rewrite (only_train_keys (training_data j) _ d l nm r) by done. done.
  - apply (rows_then_emit_raise unpack_name filenames id j train_keys [d; l; nm; r] nm);
      [by eapply unpack_rows | done].
Qed.

End LineOfBuildSubsets.

Section LineOfMakeSubset.

Import Subset.
Local Open Scope nat_scope.

Variable normpath : string -> string.

Lemma obj_name_row (keys row : list string) (i : nat) (x : string) :
  NoDup keys -> length row = length keys ->
  keys !! i = Some "name"%string -> row !! i = Some x ->
  obj_name normpath keys row = Ok (normpath x).
Proof.
  intros Hnd Hlen Hk Hx. unfold obj_name, getitem.
  by rewrite (dict_zip_lookup keys row i "name" x).
Qed.

Lemma obj_name_rows (keys : list string) (rows : list (list string)) (names : list string)
    (i : nat) :
  NoDup keys -> keys !! i = Some "name"%string ->
  Forall2 (fun row x => row !! i = Some x) rows names ->
  Forall (fun row => length row = length keys) rows ->
  Forall2 (fun row raw => obj_name normpath keys row = Ok (normpath raw)) rows names.
Proof.
  intros Hnd Hk Hc. induction Hc as [|row x rows xs Hx _ IH]; intros Hlen; [constructor|].
  apply Forall_cons in Hlen as [Hrow Hlen].
  constructor; [|by apply IH]. by apply (obj_name_row _ _ i).
Qed.

Lemma make_subset_line_spec (filenames : gset string) (j : record) :
  aligned ["name"%string] j ->
  line_spec filenames normpath id (make_subset_line normpath filenames) j.
Proof.
  intros [Hk [n Hn]] todo.
  destruct (Hk "name"%string) as [nm Hnm]; [set_solver|].
  set (l := map_to_list (training_data j)).
  assert (Hin : ("name"%string, nm) ∈ l) by by apply elem_of_map_to_list.
  apply list_elem_of_lookup in Hin as [i Hi].
  assert (Hkeys : l.*1 !! i = Some "name"%string) by by rewrite list_lookup_fmap, Hi.
  assert (Hcol : l.*2 !! i = Some nm) by by rewrite list_lookup_fmap, Hi.
  assert (Hne : l.*2 <> []) by (intros E; by rewrite E in Hcol).
  assert (Hall : Forall (fun c => length c = length nm) (l.*2)).
  { rewrite (Hn _ _ Hnm). apply Forall_fmap, Forall_forall. intros [k c] Hkc. simpl.
    apply (Hn k). by apply elem_of_map_to_list. }
  assert (Hnd : NoDup (l.*1)) by apply NoDup_fst_map_to_list.
  assert (Hrows : Forall2 (fun row raw => obj_name normpath (l.*1) row = Ok (normpath raw))
                    (zip_star (l.*2)) nm).
  { apply (obj_name_rows _ _ _ i); [done | done | |].
    - by apply (zip_star_column (l.*2) (length nm)).
    - pose proof (zip_star_row_length (l.*2)) as Hlen.
      by rewrite !length_fmap in *. }
  assert (Hdict : forall f : list string -> list string,
             dict (zip (l.*1) (f <$> l.*2)) = f <$> training_data j).
  { intros f. rewrite zip_fst_snd_fmap, dict_list_to_map.
    - unfold l. by rewrite list_to_map_fmap, list_to_map_to_list.
    - rewrite <- list_fmap_compose.
      by replace (fst ∘ prod_map id f) with (@fst string (list string)). }
  pose proof (getitems_map_to_list (training_data j)) as Hg. fold l in Hg.
  unfold make_subset_line, filter_record, names_of_line. rewrite Hnm.
  fold l. rewrite Hg. simpl.
  split; intros Hrm.
  - rewrite (rows_then_emit_ok (obj_name normpath (l.*1)) filenames normpath j (l.*1)
               (l.*2) nm); [| done | done | done | done].
    by rewrite Hdict.
  - by apply (rows_then_emit_raise (obj_name normpath (l.*1)) filenames normpath j (l.*1)
                (l.*2) nm).
Qed.

End LineOfMakeSubset.

Section Passes.

Import Subset.
Local Open Scope nat_scope.

Lemma removable_start (filenames : gset string) (norm : string -> string)
    (lines : list record) :
  removable filenames (norm <$> concat (names_of_line <$> lines)) filenames
  <-> NoDup (matched norm filenames lines).
Proof. apply removable_all. Qed.

Lemma aligned_name (j : record) : aligned train_keys j -> aligned ["name"%string] j.
Proof. intros [Hk Hn]. split; [|done]. intros k Hin. apply Hk. set_solver. Qed.

Lemma build_subsets_ok (tar_names : list string) (lines : list record) :
  Forall (aligned train_keys) lines ->
  NoDup (matched id (list_to_set tar_names) lines) ->
  build_subsets tar_names lines
  = {| written := filter_stream (in_reference id (list_to_set tar_names))
                    (only train_keys) lines;
       missing := report (list_to_set tar_names
                          ∖ list_to_set (matched id (list_to_set tar_names) lines));
       raised := None |}.
Proof.
  intros Hal Hnd. unfold build_subsets. apply lines_loop_ok.
  - eapply Forall_impl; [exact Hal|]. intros j. apply build_subsets_line_spec.
  - by apply removable_start.
Qed.

Lemma make_subset_ok (normpath : string -> string) (tar_names : list string)
    (lines : list record) :
  Forall (aligned ["name"%string]) lines ->
  NoDup (matched normpath (flac_names normpath tar_names) lines) ->
  make_subset normpath tar_names lines
  = {| written := filter_stream (in_reference normpath (flac_names normpath tar_names))
                    id lines;
       missing := report (flac_names normpath tar_names
                          ∖ list_to_set (matched normpath (flac_names normpath tar_names) lines));
       raised := None |}.
Proof.
  intros Hal Hnd. unfold make_subset. apply lines_loop_ok.
  - eapply Forall_impl; [exact Hal|]. intros j. apply make_subset_line_spec.
  - by apply removable_start.
Qed.

Lemma build_subsets_raise (tar_names : list string) (lines : list record) :
  Forall (aligned train_keys) lines ->
  ~ NoDup (matched id (list_to_set tar_names) lines) ->
  exists pre j post k,
    lines = pre ++ j :: post
    /\ k ∈ (list_to_set tar_names : gset string)
    /\ build_subsets tar_names lines
       = {| written := filter_stream (in_reference id (list_to_set tar_names))
                         (only train_keys) pre;
            missing := None;
            raised := Some (KeyError k) |}.
Proof.
  intros Hal Hnd. unfold build_subsets. apply lines_loop_raise.
  - eapply Forall_impl; [exact Hal|]. intros j. apply build_subsets_line_spec.
  - intros H. apply Hnd. by apply removable_start in H.
Qed.

Lemma make_subset_raise (normpath : string -> string) (tar_names : list string)
    (lines : list record) :
  Forall (aligned ["name"%string]) lines ->
  ~ NoDup (matched normpath (flac_names normpath tar_names) lines) ->
  exists pre j post k,
    lines = pre ++ j :: post
    /\ k ∈ flac_names normpath tar_names
    /\ make_subset normpath tar_names lines
       = {| written := filter_stream (in_reference normpath (flac_names normpath tar_names))
                         id pre;
            missing := None;
            raised := Some (KeyError k) |}.
Proof.
  intros Hal Hnd. unfold make_subset. apply lines_loop_raise.
  - eapply Forall_impl; [exact Hal|]. intros j. apply make_subset_line_spec.
  - intros H. apply Hnd. by apply removable_start in H.
Qed.

(** The columns of a filtered record have one length. *)
Lemma filter_record_equal_columns (keep : string -> bool)
    (columns : gmap string (list string) -> gmap string (list string))
    (j j' : record) :
  (forall k col, columns (training_data j) !! k = Some col ->
                 training_data j !! k = Some col) ->
  aligned ["name"%string] j ->
  filter_record keep columns j = Some j' ->
  equal_columns j'.
Proof.
  intros Hsub [Hk [n Hn]] Hf. unfold filter_record in Hf.
  destruct (existsb id (keep <$> names_of_line j)); [|done].
  injection Hf as <-.
  destruct (Hk "name"%string) as [nm Hnm]; [set_solver|].
  exists (length (select (keep <$> names_of_line j) nm)).
  intros k col. simpl. rewrite lookup_fmap.
  destruct (columns (training_data j) !! k) as [c|] eqn:E; [|done].
  intros [= <-]. apply select_length_eq.
  rewrite (Hn _ _ (Hsub _ _ E)). by rewrite (Hn _ _ Hnm).
Qed.

Lemma filter_stream_equal_columns (keep : string -> bool)
    (columns : gmap string (list string) -> gmap string (list string))
    (lines : list record) :
  (forall train k col, columns train !! k = Some col -> train !! k = Some col) ->
  Forall (aligned ["name"%string]) lines ->
  Forall equal_columns (filter_stream keep columns lines).
Proof.
  intros Hsub Hal. unfold filter_stream.
  induction Hal as [|j lines Hj _ IH]; csimpl; [constructor|].
  destruct (filter_record keep columns j) as [j'|] eqn:E; [|done].
  constructor; [|done].
  eapply filter_record_equal_columns; [|exact Hj|exact E]. apply Hsub.
Qed.

Lemma only_sub (keys : list string) (train : gmap string (list string)) (k : string)
    (col : list string) :
  only keys train !! k = Some col -> train !! k = Some col.
Proof. unfold only. by intros [? _]%map_lookup_filter_Some. Qed.

End Passes.

Section SubsetClaims.

Import Subset.
Local Open Scope nat_scope.

Lemma check_aligned_sound (keys : list string) (j : record) :
  check_aligned keys j = true -> aligned keys j.
Proof.
  unfold check_aligned. intros [Hk Hn]%andb_prop.
  apply bool_decide_eq_true in Hk, Hn. split.
  - intros k Hin. by eapply Forall_forall in Hk.
  - exists (length (names_of_line j)). intros k col Hcol.
    by apply (map_Forall_lookup_1 _ _ _ _ Hn Hcol).
Qed.

(** C8, refuted: a line that names a clip of the reference set twice has
    surviving tuples, yet nothing is written for it: the second removal
    from [todo] raises [KeyError].  And [build_subsets] does not shorten a
    fifth column, it leaves it out. *)
Lemma subset_duplicate_not_emitted :
  is_Some (filter_record (in_reference id (list_to_set ["a.flac"%string])) id Cases.twice)
  /\ build_subsets ["a.flac"%string] [Cases.twice]
     = {| written := []; missing := None; raised := Some (KeyError "a.flac") |}
  /\ make_subset id ["a.flac"%string] [Cases.twice]
     = {| written := []; missing := None; raised := Some (KeyError "a.flac") |}
  /\ (training_data <$> written (build_subsets ["a.flac"%string] [Cases.with_speaker]))
     = [ list_to_map [("duration_ms", ["1000"%string]); ("label", ["x"%string]);
                      ("name", ["a.flac"%string]); ("raw_label", ["X"%string])] ].
Proof. vm_compute. repeat split; try done. by eexists. Qed.

(** C8, as the code has it.  For a metadata stream whose records have
    columns of one length, among them the four of [train_keys], and in
    which no name of the reference set is matched by more than one tuple,
    both filters run to the end and write, in order, the records that keep
    a tuple, each with its columns shortened to the positions whose name is
    in the reference set: [make_subset] every column, with names compared
    after [normpath] against the normalised [.flac] names of the archive,
    [build_subsets] the four columns of [train_keys] and no other.  A
    record that keeps no tuple is not written.  The columns of a written
    record have one length. *)
Theorem subset_keeps_matching_tuples (normpath : string -> string)
    (tar_names : list string) (lines : list record) :
  Forall (aligned train_keys) lines ->
  NoDup (matched id (list_to_set tar_names) lines) ->
  NoDup (matched normpath (flac_names normpath tar_names) lines) ->
  (raised (build_subsets tar_names lines) = None
   /\ written (build_subsets tar_names lines)
      = filter_stream (in_reference id (list_to_set tar_names)) (only train_keys) lines
   /\ Forall equal_columns (written (build_subsets tar_names lines)))
  /\ (raised (make_subset normpath tar_names lines) = None
      /\ written (make_subset normpath tar_names lines)
         = filter_stream (in_reference normpath (flac_names normpath tar_names)) id lines
      /\ Forall equal_columns (written (make_subset normpath tar_names lines))).
Proof.
  intros Hal Hb Hm.
  assert (Hal' : Forall (aligned ["name"%string]) lines).
  { eapply Forall_impl; [exact Hal|]. apply aligned_name. }
  rewrite build_subsets_ok, make_subset_ok by done. simpl.
  repeat split.
  - apply filter_stream_equal_columns; [|done]. intros train. apply only_sub.
  - by apply filter_stream_equal_columns.
Qed.

Lemma subset_keeps_matching_tuples_witness :
  written (build_subsets ["a.flac"; "c.flac"]%string [Cases.abc]) = [Cases.abc_ac]
  /\ written (make_subset id ["a.flac"; "c.flac"]%string [Cases.abc]) = [Cases.abc_ac].
Proof.
  assert (Hal : Forall (aligned train_keys) [Cases.abc]).
  { apply Forall_singleton, check_aligned_sound. vm_compute. reflexivity. }
  assert (Hb : NoDup (matched id (list_to_set ["a.flac"; "c.flac"]%string) [Cases.abc])).
  { refine (bool_decide_unpack _ _). vm_compute. exact I. }
  assert (Hm : NoDup (matched id (flac_names id ["a.flac"; "c.flac"]%string) [Cases.abc])).
  { refine (bool_decide_unpack _ _). vm_compute. exact I. }
  destruct (subset_keeps_matching_tuples id ["a.flac"; "c.flac"]%string [Cases.abc] Hal Hb Hm)
    as [(_ & Eb & _) (_ & Em & _)].
  split.
  - rewrite Eb. vm_compute. reflexivity.
  - rewrite Em. vm_compute. reflexivity.
Defined.

(** C10: when a name of the reference set is matched by more than one
    tuple of the stream, in one record or across records, the pass ends in
    an unhandled [KeyError] on a name of the reference set, raised by
    [todo.remove]; the output file holds what the filter writes for the
    lines before the one that failed, and the final report is skipped.
    This holds for [build_subsets] and for [make_subset]. *)
Theorem subset_duplicate_match_raises (normpath : string -> string)
    (tar_names : list string) (lines : list record) :
  Forall (aligned train_keys) lines ->
  ~ NoDup (matched id (list_to_set tar_names) lines) ->
  ~ NoDup (matched normpath (flac_names normpath tar_names) lines) ->
  (exists pre j post k,
      lines = pre ++ j :: post
      /\ k ∈ (list_to_set tar_names : gset string)
      /\ build_subsets tar_names lines
         = {| written := filter_stream (in_reference id (list_to_set tar_names))
                           (only train_keys) pre;
              missing := None;
              raised := Some (KeyError k) |})
  /\ (exists pre j post k,
         lines = pre ++ j :: post
         /\ k ∈ flac_names normpath tar_names
         /\ make_subset normpath tar_names lines
            = {| written := filter_stream
                              (in_reference normpath (flac_names normpath tar_names)) id pre;
                 missing := None;
                 raised := Some (KeyError k) |}).
Proof.
  intros Hal Hb Hm. split.
  - by apply build_subsets_raise.
  - apply make_subset_raise; [|done].
    eapply Forall_impl; [exact Hal|]. apply aligned_name.
Qed.

Lemma subset_duplicate_match_raises_witness :
  (exists k, raised (build_subsets ["a.flac"; "c.flac"]%string [Cases.abc; Cases.twice])
             = Some (KeyError k))
  /\ (exists k, raised (make_subset id ["a.flac"; "c.flac"]%string [Cases.abc; Cases.twice])
                = Some (KeyError k)).
Proof.
  assert (Hal : Forall (aligned train_keys) [Cases.abc; Cases.twice]).
  { apply Forall_cons. split; [|apply Forall_singleton];
      apply check_aligned_sound; vm_compute; reflexivity. }
  assert (Hb : ~ NoDup (matched id (list_to_set ["a.flac"; "c.flac"]%string)
                          [Cases.abc; Cases.twice])).
  { intros H. apply (bool_decide_pack _) in H. vm_compute in H. exact H. }
  assert (Hm : ~ NoDup (matched id (flac_names id ["a.flac"; "c.flac"]%string)
                          [Cases.abc; Cases.twice])).
  { intros H. apply (bool_decide_pack _) in H. vm_compute in H. exact H. }
  destruct (subset_duplicate_match_raises id ["a.flac"; "c.flac"]%string
              [Cases.abc; Cases.twice] Hal Hb Hm)
    as [(pre & j & post & k & _ & _ & Eb) (pre' & j' & post' & k' & _ & _ & Em)].
  split; [exists k; by rewrite Eb | exists k'; by rewrite Em].
Defined.

(** The run behind the witness of C10: the first line is written, the
    second one raises. *)
Example subset_prefix_then_key_error :
  build_subsets ["a.flac"; "c.flac"]%string [Cases.abc; Cases.twice]
  = {| written := [Cases.abc_ac]; missing := None; raised := Some (KeyError "a.flac") |}
  /\ make_subset id ["a.flac"; "c.flac"]%string [Cases.abc; Cases.twice]
     = {| written := [Cases.abc_ac]; missing := None; raised := Some (KeyError "a.flac") |}.
Proof. vm_compute. split; reflexivity. Qed.

End SubsetClaims.

(** ** The manifest *)

Section ManifestFacts.

Import Manifest.

Variables (iterdir : string -> list string) (hash_path : string -> string).

Lemma dom_foldl_insert (f g : string -> string) (l : list string) (m : gmap string string) :
  dom (foldl (fun h name => <[f name := g name]> h) m l) = list_to_set (f <$> l) ∪ dom m.
Proof.
  revert m. induction l as [|x l IH]; intros m; csimpl; [set_solver|].
  rewrite IH, dom_insert_L. set_solver.
Qed.

(** The digests are keyed by the listed paths: the entries of the split's
    directory and the two metadata files, all relative to [repo_dir]. *)
Lemma build_split_hash_keys (repo_dir data_dir split : string) :
  let e := build_split iterdir hash_path repo_dir data_dir split in
  dom (hashes e) = list_to_set (tars e ++ [json_full e; json_first e]).
Proof.
  simpl. rewrite dom_foldl_insert, fmap_app. set_solver.
Qed.

Lemma build_split_tars (repo_dir data_dir split : string) :
  tars (build_split iterdir hash_path repo_dir data_dir split)
  = (fun path => relpath path repo_dir) <$> iterdir (joinpath data_dir split).
Proof. done. Qed.

End ManifestFacts.

Example renames : Manifest.RENAMES.*2 = ["clean"; "dirty"; "clean_sa"; "dirty_sa"]%string.
Proof. vm_compute. reflexivity. Qed.

(** C9, at the input that breaks it.  [resplit_tars] wrote three archives
    into [repo_out/data/clean]; [iterdir] returns them as the operating
    system lists them, here 2, 0, 1, and [build_manifest] records them in
    that order, not in the order of their numbers. *)
Theorem manifest_tars_in_listing_order :
  yielded "clean" Cases.five "repo_out/data/clean" 2560
  = ["repo_out/data/clean/clean_000000.tar";
     "repo_out/data/clean/clean_000001.tar";
     "repo_out/data/clean/clean_000002.tar"]%string
  /\ Cases.listing "repo_out/data/clean"
     ≡ₚ yielded "clean" Cases.five "repo_out/data/clean" 2560
  /\ Manifest.tars <$> (Manifest.build_manifest Cases.listing Cases.digest
                          "repo_out" "repo_out/data" !! "clean"%string)
     = Some ["data/clean/clean_000002.tar";
             "data/clean/clean_000000.tar";
             "data/clean/clean_000001.tar"]%string
  /\ Manifest.tars <$> (Manifest.build_manifest Cases.listing Cases.digest
                          "repo_out" "repo_out/data" !! "clean"%string)
     <> Some ((fun path => Manifest.relpath path "repo_out")
                <$> yielded "clean" Cases.five "repo_out/data/clean" 2560).
Proof.
  split; [vm_compute; reflexivity|].
  split.
  - change (yielded "clean" Cases.five "repo_out/data/clean" 2560)
      with ["repo_out/data/clean/clean_000000.tar";
            "repo_out/data/clean/clean_000001.tar";
            "repo_out/data/clean/clean_000002.tar"]%string.
    change (Cases.listing "repo_out/data/clean")
      with ["repo_out/data/clean/clean_000002.tar";
            "repo_out/data/clean/clean_000000.tar";
            "repo_out/data/clean/clean_000001.tar"]%string.
    apply Permutation_cons_app with (l1 := ["repo_out/data/clean/clean_000000.tar";
                                            "repo_out/data/clean/clean_000001.tar"]%string)
                                    (l2 := []). by rewrite app_nil_r.
  - split; vm_compute; [reflexivity | discriminate].
Qed.

(** * Further facts about [resplit_tars] *)

(** X1: when every member of the source archives is a regular file, the
    members of the archives written, taken archive after archive, are the
    entry stream: nothing is lost, nothing is written twice, the order is
    kept, whatever [split_max] is. *)
Theorem resplit_keeps_regular_stream (name dst : string) (src : list (list TarInfo))
    (split_max : Z) :
  Forall (Forall (fun info => ti_isreg info = true)) src ->
  concat (map sh_members (shards name src dst split_max)) = iter_tars src.
Proof.
  intros Hr. unfold shards, resplit_tars.
  rewrite pull_members; [done|]. by apply iter_tars_readers.
Qed.

Lemma resplit_keeps_regular_stream_witness :
  concat (map sh_members (shards "clean" Cases.five "out" 2560)) = iter_tars Cases.five.
Proof.
  apply (resplit_keeps_regular_stream "clean" "out" Cases.five 2560).
  repeat constructor.
Defined.

(** X2: the archives are numbered from 0 without a gap: the paths yielded are
    [out_path] of 0, 1, 2, ... up to the number of archives written. *)
Theorem resplit_paths_numbered (name dst : string) (src : list (list TarInfo))
    (split_max : Z) :
  yielded name src dst split_max
  = map (out_path dst name) (seq 0 (length (shards name src dst split_max))).
Proof.
  rewrite resplit_yielded_paths. apply pull_paths, open_first_path.
Qed.

(** X3: exactly the last archive is closed because the stream ran dry; every
    archive before it is closed on a member that did not fit. *)
Theorem resplit_only_last_ends_stream (name dst : string) (src : list (list TarInfo))
    (split_max : Z) (i : nat) (s : shard) :
  shards name src dst split_max !! i = Some s ->
  sh_break s = None <-> S i = length (shards name src dst split_max).
Proof.
  intros Hs. pose proof (lookup_lt_Some _ _ _ Hs) as Hlt. split.
  - intros Hb. destruct (decide (S i = length (shards name src dst split_max))) as [|Hne]; [done|].
    destruct (lookup_lt_is_Some_2 (shards name src dst split_max) (S i)) as [s' Hs']; [lia|].
    destruct (pull_break _ _ _ _ _ _ _ _ _ Hs Hs') as (m & Hm & _). congruence.
  - intros Hi. apply (pull_last dst name (split_max - BLOCKSIZE) (iter_tars src) 0%nat
                        (open_shard dst name 0 None)).
    fold (resplit_tars name src dst split_max). fold (shards name src dst split_max).
    rewrite last_lookup, <- Hi. exact Hs.
Qed.

Lemma resplit_only_last_ends_stream_witness :
  exists s, shards "clean" Cases.five "out" 2560 !! 2%nat = Some s /\ sh_break s = None.
Proof.
  pose (ss := shards "clean" Cases.five "out" 2560).
  pose (s := default (close (open_w "") None) (ss !! 2%nat)).
  assert (H : ss !! 2%nat = Some s) by (vm_compute; reflexivity).
  exists s. split; [exact H|].
  apply (proj2 (resplit_only_last_ends_stream "clean" "out" Cases.five 2560 2 s H)).
  vm_compute. reflexivity.
Defined.

Section OffsetBound.

Variables (dst name : string) (target_size : Z).

Local Abbreviation plain :=
  (fun m : member => 0 <= ti_size (fst m) /\ ti_ext_blocks (fst m) = 0%nat).

Local Arguments open_shard : simpl never.
Local Arguments addfile : simpl never.






End OffsetBound.



(** Without the condition on the headers the bound fails: two members with
    names of more than 100 bytes take two extended header blocks each, line 58 counts
    512 bytes for either header, and archive 0 ends at 4608, above
    [split_max = 4096]. *)
Example resplit_long_names_exceed :
  exists s, shards "clean" Cases.long_names "out" 4096 = [s]
            /\ length (sh_members s) = 2%nat
            /\ sh_offset s = 4608
            /\ 4096 < sh_offset s.
Proof. eexists. vm_compute. repeat split; done. Qed.

(** * Further facts about the subset filter *)

Section Counting.

Import Subset.
Local Open Scope nat_scope.

Lemma select_filter {A : Type} (f : A -> bool) (l : list A) :
  select (f <$> l) l = filter (fun x => f x = true) l.
Proof.
  induction l as [|x l IH]; [done|]. csimpl.
  destruct (f x) eqn:E.
  - rewrite filter_cons_True by done. by rewrite IH.
  - rewrite filter_cons_False by (by rewrite E). done.
Qed.

Lemma length_filter_fmap {A B : Type} (P : B -> Prop) `{!forall y, Decision (P y)}
    (f : A -> B) (l : list A) :
  length (filter P (f <$> l)) = length (filter (fun x => P (f x)) l).
Proof.
  induction l as [|x l IH]; [done|]. csimpl.
  destruct (decide (P (f x))).
  - rewrite !filter_cons_True by done. simpl. by rewrite IH.
  - by rewrite !filter_cons_False by done.
Qed.

Lemma length_filter_ext {A : Type} (P Q : A -> Prop) `{!forall x, Decision (P x)}
    `{!forall x, Decision (Q x)} (l : list A) :
  (forall x, P x <-> Q x) -> length (filter P l) = length (filter Q l).
Proof.
  intros Hiff. induction l as [|x l IH]; [done|].
  destruct (decide (P x)) as [Hp|Hp].
  - rewrite !filter_cons_True by (done || by apply Hiff). simpl. by rewrite IH.
  - rewrite !filter_cons_False by (done || by rewrite <- Hiff). done.
Qed.

Variables (norm : string -> string) (filenames : gset string).
Variable columns : gmap string (list string) -> gmap string (list string).
Hypothesis columns_name : forall train, columns train !! "name"%string = train !! "name"%string.

Local Abbreviation keep := (in_reference norm filenames).

Lemma filter_record_names (j j' : record) :
  filter_record keep columns j = Some j' ->
  training_data j' !! "name"%string
  = Some (filter (fun n => keep n = true) (names_of_line j)).
Proof.
  unfold filter_record. destruct (existsb id (keep <$> names_of_line j)) eqn:Hex; [|done].
  intros [= <-]. simpl. rewrite lookup_fmap, columns_name.
  unfold names_of_line in *.
  destruct (training_data j !! "name"%string) as [names|]; simpl in *; [|done].
  by rewrite select_filter.
Qed.

Lemma filter_record_none (j : record) :
  filter_record keep columns j = None ->
  filter (fun n => keep n = true) (names_of_line j) = [].
Proof.
  unfold filter_record. destruct (existsb id (keep <$> names_of_line j)) eqn:Hex; [done|].
  intros _. rewrite <- select_filter. by apply select_none.
Qed.

(** Counting the clips of the filtered stream gives the number of tuples
    the reference set matches. *)
Lemma count_clips_filter_stream (lines : list record) (total : nat) :
  count_clips (filter_stream keep columns lines) total
  = Ok (total + length (matched norm filenames lines)).
Proof.
  revert total. induction lines as [|j lines IH]; intros total.
  - simpl. f_equal. unfold matched. simpl. lia.
  - unfold filter_stream. csimpl. fold (filter_stream keep columns lines).
    assert (Hm : length (matched norm filenames (j :: lines))
                 = length (filter (fun n => keep n = true) (names_of_line j))
                   + length (matched norm filenames lines)).
    { rewrite matched_cons, length_app. f_equal.
      rewrite length_filter_fmap. apply length_filter_ext.
      intros n. unfold in_reference. by rewrite bool_decide_eq_true. }
    destruct (filter_record keep columns j) as [j'|] eqn:E; csimpl.
    + unfold getitem. rewrite (filter_record_names j j' E). simpl.
      rewrite IH, Hm. f_equal. lia.
    + rewrite IH, Hm, (filter_record_none j E). done.
Qed.

End Counting.

Section Reports.

Import Subset.
Local Open Scope nat_scope.

Lemma matched_in (norm : string -> string) (filenames : gset string) (lines : list record)
    (n : string) :
  n ∈ matched norm filenames lines -> n ∈ filenames.
Proof. unfold matched. by intros [? _]%list_elem_of_filter. Qed.

(** The size of what is left of the reference set. *)
Lemma report_count (norm : string -> string) (filenames : gset string)
    (lines : list record) :
  NoDup (matched norm filenames lines) ->
  report (filenames ∖ list_to_set (matched norm filenames lines))
  = if decide (length (matched norm filenames lines) = size filenames) then None
    else Some (size filenames - length (matched norm filenames lines)).
Proof.
  intros Hnd. set (M := matched norm filenames lines) in *.
  assert (Hsub : (list_to_set M : gset string) ⊆ filenames).
  { intros n Hn%elem_of_list_to_set. by eapply matched_in. }
  assert (HsM : size (list_to_set M : gset string) = length M) by by apply size_list_to_set.
  pose proof (size_difference filenames (list_to_set M) Hsub) as Hsz.
  pose proof (subseteq_size _ _ Hsub) as Hle.
  unfold report. destruct (decide (filenames ∖ list_to_set M = ∅)) as [He|Hne].
  - rewrite He, size_empty in Hsz. rewrite decide_True by lia. done.
  - assert (size (filenames ∖ list_to_set M) <> 0).
    { intros H0. apply Hne. apply leibniz_equiv. by apply size_empty_inv. }
    rewrite decide_False by lia. f_equal. lia.
Qed.

End Reports.

(** X5: when every record has the four columns in one length and no name of
    the reference set is matched twice, counting the clips of the file a
    filter wrote, as [json_count_clips] does, gives the number of tuples of
    the full stream whose name is in the reference set; it does not exceed
    the count of the full file. *)
Theorem subset_clip_count (normpath : string -> string) (tar_names : list string)
    (lines : list Subset.record) :
  Forall (Subset.aligned Subset.train_keys) lines ->
  NoDup (Subset.matched id (list_to_set tar_names) lines) ->
  NoDup (Subset.matched normpath (Subset.flac_names normpath tar_names) lines) ->
  Subset.json_count_clips (Subset.written (Subset.build_subsets tar_names lines))
  = Subset.Ok (length (Subset.matched id (list_to_set tar_names) lines))
  /\ Subset.json_count_clips (Subset.written (Subset.make_subset normpath tar_names lines))
     = Subset.Ok (length (Subset.matched normpath (Subset.flac_names normpath tar_names) lines))
  /\ exists total,
       Subset.json_count_clips lines = Subset.Ok total
       /\ (length (Subset.matched id (list_to_set tar_names) lines) <= total)%nat
       /\ (length (Subset.matched normpath (Subset.flac_names normpath tar_names) lines)
           <= total)%nat.
Proof.
  intros Hal Hb Hm.
  assert (Hal' : Forall (Subset.aligned ["name"%string]) lines).
  { eapply Forall_impl; [exact Hal|]. apply aligned_name. }
  rewrite build_subsets_ok, make_subset_ok by done. simpl.
  unfold Subset.json_count_clips.
  split; [|split].
  - rewrite (count_clips_filter_stream id); [done|].
    intros train. apply only_lookup_in. unfold Subset.train_keys. set_solver.
  - by rewrite (count_clips_filter_stream normpath).
  - exists (length (concat (Subset.names_of_line <$> lines))). split.
    + assert (Hgen : forall total,
                 Subset.count_clips lines total
                 = Subset.Ok (total + length (concat (Subset.names_of_line <$> lines)))%nat);
        [|by rewrite Hgen].
      clear Hb Hm Hal.
      induction Hal' as [|j lines' [Hk _] _ IH]; intros total; csimpl.
      * f_equal. lia.
      * destruct (Hk "name"%string) as [names Hn]; [set_solver|].
        assert (Hnl : Subset.names_of_line j = names)
          by (unfold Subset.names_of_line; by rewrite Hn).
        unfold Subset.getitem. rewrite Hn, Hnl. simpl.
        rewrite IH, length_app. f_equal. lia.
    + unfold Subset.matched. split.
      * etrans; [apply length_filter|]. by rewrite length_fmap.
      * etrans; [apply length_filter|]. by rewrite length_fmap.
Qed.

Lemma subset_clip_count_witness :
  Subset.json_count_clips
    (Subset.written (Subset.build_subsets ["a.flac"; "c.flac"]%string [Cases.abc]))
  = Subset.Ok 2%nat.
Proof.
  assert (Hal : Forall (Subset.aligned Subset.train_keys) [Cases.abc]).
  { apply Forall_singleton, check_aligned_sound. vm_compute. reflexivity. }
  assert (Hb : NoDup (Subset.matched id (list_to_set ["a.flac"; "c.flac"]%string) [Cases.abc])).
  { refine (bool_decide_unpack _ _). vm_compute. exact I. }
  assert (Hm : NoDup (Subset.matched id (Subset.flac_names id ["a.flac"; "c.flac"]%string)
                        [Cases.abc])).
  { refine (bool_decide_unpack _ _). vm_compute. exact I. }
  destruct (subset_clip_count id ["a.flac"; "c.flac"]%string [Cases.abc] Hal Hb Hm)
    as (E & _ & _).
  rewrite E. vm_compute. reflexivity.
Defined.

(** X6: under the same conditions the count a filter prints at the end is
    the number of names in the reference set minus the number of tuples
    kept, and nothing is printed when every name of the reference set was
    matched. *)
Theorem subset_report (normpath : string -> string) (tar_names : list string)
    (lines : list Subset.record) :
  Forall (Subset.aligned Subset.train_keys) lines ->
  NoDup (Subset.matched id (list_to_set tar_names) lines) ->
  NoDup (Subset.matched normpath (Subset.flac_names normpath tar_names) lines) ->
  Subset.missing (Subset.build_subsets tar_names lines)
  = (let kept := length (Subset.matched id (list_to_set tar_names) lines) in
     let names := size (list_to_set tar_names : gset string) in
     if decide (kept = names) then None else Some (names - kept)%nat)
  /\ Subset.missing (Subset.make_subset normpath tar_names lines)
     = (let kept := length (Subset.matched normpath (Subset.flac_names normpath tar_names)
                              lines) in
        let names := size (Subset.flac_names normpath tar_names) in
        if decide (kept = names) then None else Some (names - kept)%nat).
Proof.
  intros Hal Hb Hm.
  assert (Hal' : Forall (Subset.aligned ["name"%string]) lines).
  { eapply Forall_impl; [exact Hal|]. apply aligned_name. }
  rewrite build_subsets_ok, make_subset_ok by done. simpl.
  split; by apply report_count.
Qed.

Lemma subset_report_witness :
  Subset.missing (Subset.build_subsets ["a.flac"; "c.flac"; "z.flac"]%string [Cases.abc])
  = Some 1%nat.
Proof.
  assert (Hal : Forall (Subset.aligned Subset.train_keys) [Cases.abc]).
  { apply Forall_singleton, check_aligned_sound. vm_compute. reflexivity. }
  assert (Hb : NoDup (Subset.matched id (list_to_set ["a.flac"; "c.flac"; "z.flac"]%string)
                        [Cases.abc])).
  { refine (bool_decide_unpack _ _). vm_compute. exact I. }
  assert (Hm : NoDup (Subset.matched id
                        (Subset.flac_names id ["a.flac"; "c.flac"; "z.flac"]%string)
                        [Cases.abc])).
  { refine (bool_decide_unpack _ _). vm_compute. exact I. }
  destruct (subset_report id ["a.flac"; "c.flac"; "z.flac"]%string [Cases.abc] Hal Hb Hm)
    as (E & _).
  rewrite E. vm_compute. reflexivity.
Defined.

Section LinesCompose.

Import Subset.
Local Open Scope nat_scope.

Variables (filenames : gset string) (norm : string -> string).
Variable columns : gmap string (list string) -> gmap string (list string).
Variable line : record -> gset string -> result (gset string * option record).

(** The lines after a prefix that goes through see what the prefix left. *)
Lemma lines_loop_prefix (pre rest : list record) (todo : gset string) :
  Forall (line_spec filenames norm columns line) pre ->
  removable filenames (norm <$> concat (names_of_line <$> pre)) todo ->
  lines_loop line (pre ++ rest) todo
  = (let p := lines_loop line rest (todo ∖ list_to_set (matched norm filenames pre)) in
     {| written := filter_stream (in_reference norm filenames) columns pre ++ written p;
        missing := missing p;
        raised := raised p |}).
Proof.
  intros H. revert todo. induction H as [|j pre Hj _ IH]; intros todo Hrm.
  - assert (E : todo ∖ list_to_set (matched norm filenames []) = todo)
      by (unfold matched; set_solver).
    rewrite E, app_nil_l. simpl. by destruct (lines_loop line rest todo).
  - csimpl. csimpl in Hrm. rewrite fmap_app in Hrm.
    apply (removable_app filenames norm) in Hrm as [Hrm Hrest].
    destruct (Hj todo) as [Hok _]. rewrite (Hok Hrm).
    rewrite (IH _ Hrest). simpl. rewrite (matched_cons filenames norm).
    replace (todo ∖ list_to_set (filter (fun n => n ∈ filenames) (norm <$> names_of_line j))
               ∖ list_to_set (matched norm filenames pre))
      with (todo ∖ list_to_set (filter (fun n => n ∈ filenames) (norm <$> names_of_line j)
                                  ++ matched norm filenames pre))
      by set_solver.
    f_equal. unfold filter_stream. csimpl.
    destruct (filter_record _ _ j); by rewrite ?app_assoc.
Qed.

(** A line that does nothing can be left out. *)
Lemma lines_loop_skip (pre post : list record) (j : record) (todo : gset string) :
  (forall todo', line j todo' = Ok (todo', None)) ->
  lines_loop line (pre ++ j :: post) todo = lines_loop line (pre ++ post) todo.
Proof.
  intros Hj. revert todo. induction pre as [|j' pre IH]; intros todo; csimpl.
  - rewrite Hj. simpl. by destruct (lines_loop line post todo).
  - destruct (line j' todo) as [[todo' out]|e]; [|done]. by rewrite IH.
Qed.

End LinesCompose.

Section MissingColumns.

Import Subset.
Local Open Scope nat_scope.

Lemma getitems_first_missing {V : Type} (d : gmap string V) (before after : list string)
    (k : string) :
  (forall k', k' ∈ before -> is_Some (d !! k')) ->
  d !! k = None ->
  getitems d (before ++ k :: after) = Raise (KeyError k).
Proof.
  intros Hb Hk. induction before as [|k' before IH]; csimpl.
  - unfold getitem. by rewrite Hk.
  - destruct (Hb k') as [v Hv]; [by left|].
    unfold getitem at 1. rewrite Hv. simpl. rewrite IH; [done|].
    intros k'' Hin. apply Hb. by right.
Qed.

Lemma zip_star_empty_column {A : Type} (cols : list (list A)) :
  [] ∈ cols -> zip_star cols = [].
Proof.
  induction cols as [|c cs IH]; [by intros ?%elem_of_nil|].
  intros [<-|Hin]%elem_of_cons.
  - by destruct cs.
  - destruct cs as [|c' cs]; [by apply elem_of_nil in Hin|].
    rewrite zip_star_cons, IH by done. by destruct c.
Qed.

Lemma zip_star_nonempty {A : Type} (cols : list (list A)) :
  cols <> [] -> Forall (fun c => c <> []) cols -> zip_star cols <> [].
Proof.
  induction cols as [|c cs IH]; [done|]. intros _ Hall.
  apply Forall_cons in Hall as [Hc Hcs].
  destruct cs as [|c' cs].
  - simpl. by destruct c.
  - rewrite zip_star_cons.
    destruct c as [|x c]; [done|].
    pose proof (IH ltac:(done) Hcs) as Hn.
    by destruct (zip_star (c' :: cs)).
Qed.

Lemma dict_lookup_notin {V : Type} (pairs : list (string * V)) (k : string) :
  k ∉ pairs.*1 -> dict pairs !! k = None.
Proof.
  unfold dict. generalize (∅ : gmap string V) (lookup_empty (M:=gmap string) (A:=V) k).
  induction pairs as [|[k' v] pairs IH]; intros m Hm Hk; csimpl; [done|].
  apply not_elem_of_cons in Hk as [Hne Hk].
  apply IH; [|done]. by rewrite lookup_insert_ne.
Qed.

Lemma build_subsets_line_missing (filenames : gset string) (j : record) (todo : gset string)
    (before after : list string) (k : string) :
  train_keys = before ++ k :: after ->
  (forall k', k' ∈ before -> is_Some (training_data j !! k')) ->
  training_data j !! k = None ->
  build_subsets_line filenames j todo = Raise (KeyError k).
Proof.
  intros Hkeys Hb Hk. unfold build_subsets_line. rewrite Hkeys.
  by rewrite (getitems_first_missing _ before after k Hb Hk).
Qed.

Variable normpath : string -> string.

(** A record without a [name] column whose columns are not empty: the first
    tuple already fails on [obj['name']]. *)
Lemma make_subset_line_no_name (filenames : gset string) (j : record) (todo : gset string) :
  training_data j !! "name"%string = None ->
  training_data j <> ∅ ->
  (forall k col, training_data j !! k = Some col -> col <> []) ->
  make_subset_line normpath filenames j todo = Raise (KeyError "name").
Proof.
  intros Hno Hne Hcols. unfold make_subset_line.
  set (l := map_to_list (training_data j)).
  pose proof (getitems_map_to_list (training_data j)) as Hg. fold l in Hg.
  rewrite Hg. simpl.
  assert (Hl : l.*2 <> []).
  { intros E. apply Hne. apply map_to_list_empty_iff.
    fold l. destruct l; [done|discriminate]. }
  assert (Hall : Forall (fun c => c <> []) (l.*2)).
  { apply Forall_fmap, Forall_forall. intros [k c] Hkc. simpl.
    apply (Hcols k). by apply elem_of_map_to_list. }
  pose proof (zip_star_nonempty (l.*2) Hl Hall) as Hrows.
  destruct (zip_star (l.*2)) as [|r rows]; [done|].
  simpl. unfold obj_name, getitem.
  rewrite dict_lookup_notin; [done|].
  intros Hin. apply list_elem_of_fmap in Hin as ([k v] & Hk & Hkv). simpl in Hk. subst k.
  apply elem_of_zip_l in Hkv.
  apply list_elem_of_fmap in Hkv as ([k c] & Hk & Hkc). simpl in Hk. subst k.
  apply elem_of_map_to_list in Hkc. congruence.
Qed.

(** A record with no column, or with an empty column, has no tuples. *)
Lemma make_subset_line_no_rows (filenames : gset string) (j : record) (todo : gset string) :
  training_data j = ∅ \/ (exists k, training_data j !! k = Some []) ->
  make_subset_line normpath filenames j todo = Ok (todo, None).
Proof.
  intros H. unfold make_subset_line.
  set (l := map_to_list (training_data j)).
  pose proof (getitems_map_to_list (training_data j)) as Hg. fold l in Hg.
  rewrite Hg. simpl.
  assert (E : zip_star (l.*2) = []).
  { destruct H as [H|[k Hk]].
    - unfold l. by rewrite H, map_to_list_empty.
    - apply zip_star_empty_column. apply list_elem_of_fmap.
      exists (k, []). split; [done|]. by apply elem_of_map_to_list. }
  by rewrite E.
Qed.

End MissingColumns.

(** X7: [build_subsets] needs the four columns of [train_keys] in every
    line.  At the first line that lacks one of them the pass ends with
    [KeyError] on the first missing column in the order [duration_ms],
    [label], [name], [raw_label]; the lines before it, when they go through,
    are written, and nothing is written for this line or after it. *)
Theorem build_subsets_missing_column (tar_names : list string)
    (pre post : list Subset.record) (j : Subset.record) (before after : list string)
    (k : string) :
  Forall (Subset.aligned Subset.train_keys) pre ->
  NoDup (Subset.matched id (list_to_set tar_names) pre) ->
  Subset.train_keys = before ++ k :: after ->
  (forall k', k' ∈ before -> is_Some (Subset.training_data j !! k')) ->
  Subset.training_data j !! k = None ->
  Subset.build_subsets tar_names (pre ++ j :: post)
  = {| Subset.written := Subset.filter_stream
                           (Subset.in_reference id (list_to_set tar_names))
                           (Subset.only Subset.train_keys) pre;
       Subset.missing := None;
       Subset.raised := Some (Subset.KeyError k) |}.
Proof.
  intros Hal Hnd Hkeys Hb Hk. unfold Subset.build_subsets.
  rewrite (lines_loop_prefix (list_to_set tar_names) id (Subset.only Subset.train_keys)).
  - csimpl. rewrite (build_subsets_line_missing _ _ _ before after k Hkeys Hb Hk). simpl.
    by rewrite app_nil_r.
  - eapply Forall_impl; [exact Hal|]. intros j'. apply build_subsets_line_spec.
  - by apply removable_start.
Qed.

Lemma build_subsets_missing_column_witness :
  Subset.raised
    (Subset.build_subsets ["a.flac"; "c.flac"]%string
       [Cases.abc;
        {| Subset.passthrough := ∅;
           Subset.training_data := {[ "duration_ms"%string := ["1000"%string] ]} |}])
  = Some (Subset.KeyError "label").
Proof.
  assert (Hal : Forall (Subset.aligned Subset.train_keys) [Cases.abc]).
  { apply Forall_singleton, check_aligned_sound. vm_compute. reflexivity. }
  assert (Hb : NoDup (Subset.matched id (list_to_set ["a.flac"; "c.flac"]%string) [Cases.abc])).
  { refine (bool_decide_unpack _ _). vm_compute. exact I. }
  assert (Hd : forall k', k' ∈ ["duration_ms"%string] ->
                 is_Some (({[ "duration_ms"%string := ["1000"%string] ]}
                           : gmap string (list string)) !! k')).
  { intros k' ->%list_elem_of_singleton. vm_compute. by eexists. }
  assert (Hl : ({[ "duration_ms"%string := ["1000"%string] ]}
                : gmap string (list string)) !! "label"%string = None).
  { vm_compute. reflexivity. }
  exact (f_equal Subset.raised
           (build_subsets_missing_column ["a.flac"; "c.flac"]%string [Cases.abc] []
              {| Subset.passthrough := ∅;
                 Subset.training_data := {[ "duration_ms"%string := ["1000"%string] ]} |}
              ["duration_ms"%string] ["name"; "raw_label"]%string "label"
              Hal Hb eq_refl Hd Hl)).
Defined.

(** X8: [make_subset] needs only the [name] column.  At the first line that
    has columns, none of them empty, but no [name] among them, the pass ends
    with [KeyError] on [name]; the lines before it, when they go through,
    are written. *)
Theorem make_subset_missing_name (normpath : string -> string) (tar_names : list string)
    (pre post : list Subset.record) (j : Subset.record) :
  Forall (Subset.aligned ["name"%string]) pre ->
  NoDup (Subset.matched normpath (Subset.flac_names normpath tar_names) pre) ->
  Subset.training_data j !! "name"%string = None ->
  Subset.training_data j <> ∅ ->
  (forall k col, Subset.training_data j !! k = Some col -> col <> []) ->
  Subset.make_subset normpath tar_names (pre ++ j :: post)
  = {| Subset.written := Subset.filter_stream
                           (Subset.in_reference normpath
                              (Subset.flac_names normpath tar_names)) id pre;
       Subset.missing := None;
       Subset.raised := Some (Subset.KeyError "name") |}.
Proof.
  intros Hal Hnd Hno Hne Hcols. unfold Subset.make_subset.
  rewrite (lines_loop_prefix (Subset.flac_names normpath tar_names) normpath id).
  - csimpl. rewrite make_subset_line_no_name by done. simpl. by rewrite app_nil_r.
  - eapply Forall_impl; [exact Hal|]. intros j'. apply make_subset_line_spec.
  - by apply removable_start.
Qed.

Lemma make_subset_missing_name_witness :
  Subset.raised
    (Subset.make_subset id ["a.flac"; "c.flac"]%string
       [Cases.abc;
        {| Subset.passthrough := ∅;
           Subset.training_data := {[ "label"%string := ["x"%string] ]} |}])
  = Some (Subset.KeyError "name").
Proof.
  assert (Hal : Forall (Subset.aligned ["name"%string]) [Cases.abc]).
  { apply Forall_singleton, check_aligned_sound. vm_compute. reflexivity. }
  assert (Hm : NoDup (Subset.matched id (Subset.flac_names id ["a.flac"; "c.flac"]%string)
                        [Cases.abc])).
  { refine (bool_decide_unpack _ _). vm_compute. exact I. }
  assert (Hno : ({[ "label"%string := ["x"%string] ]} : gmap string (list string))
                 !! "name"%string = None).
  { vm_compute. reflexivity. }
  assert (Hne : ({[ "label"%string := ["x"%string] ]} : gmap string (list string)) <> ∅).
  { intros E. apply (f_equal (fun m => m !! "label"%string)) in E.
    vm_compute in E. discriminate. }
  assert (Hcols : forall k col,
             ({[ "label"%string := ["x"%string] ]} : gmap string (list string)) !! k = Some col ->
             col <> []).
  { intros k col Hk. destruct (decide (k = "label"%string)) as [->|Hk'].
    - vm_compute in Hk. by injection Hk as <-.
    - rewrite lookup_singleton_ne in Hk by done. discriminate. }
  exact (f_equal Subset.raised
           (make_subset_missing_name id ["a.flac"; "c.flac"]%string [Cases.abc] []
              {| Subset.passthrough := ∅;
                 Subset.training_data := {[ "label"%string := ["x"%string] ]} |}
              Hal Hm Hno Hne Hcols)).
Defined.

(** X9: a line of [make_subset] without clips, be it that [training_data]
    has no column or that one of its columns is empty, leaves no trace: the
    pass goes as it does without the line. *)
Theorem make_subset_skips_empty_line (normpath : string -> string) (tar_names : list string)
    (pre post : list Subset.record) (j : Subset.record) :
  Subset.training_data j = ∅ \/ (exists k, Subset.training_data j !! k = Some []) ->
  Subset.make_subset normpath tar_names (pre ++ j :: post)
  = Subset.make_subset normpath tar_names (pre ++ post).
Proof.
  intros H. unfold Subset.make_subset. apply lines_loop_skip.
  intros todo'. by apply make_subset_line_no_rows.
Qed.

Lemma make_subset_skips_empty_line_witness :
  Subset.make_subset id ["a.flac"; "c.flac"]%string
    [Cases.abc; {| Subset.passthrough := ∅; Subset.training_data := ∅ |}; Cases.twice]
  = Subset.make_subset id ["a.flac"; "c.flac"]%string [Cases.abc; Cases.twice].
Proof.
  apply (make_subset_skips_empty_line id ["a.flac"; "c.flac"]%string [Cases.abc] [Cases.twice]
           {| Subset.passthrough := ∅; Subset.training_data := ∅ |}).
  left. reflexivity.
Defined.

(** * Reading files in chunks *)

Section Chunks.

Import Files.

Lemma chunk_pos : (0 < CHUNK)%nat.
Proof. unfold CHUNK. lia. Qed.

Local Opaque CHUNK.

Lemma take_chunk_nil (f : list Byte.byte) : take CHUNK f = [] -> f = [].
Proof.
  intros E. apply (f_equal length) in E. rewrite length_take in E. simpl in E.
  pose proof chunk_pos. destruct f; [done|]. simpl in E. lia.
Qed.

Lemma drop_chunk_shorter (f : list Byte.byte) :
  f <> [] -> (length (drop CHUNK f) < length f)%nat.
Proof.
  intros Hf. rewrite length_drop. pose proof chunk_pos.
  destruct f; [done|]. simpl. lia.
Qed.

Lemma copy_loop_spec (fuel : nat) (f o : list Byte.byte) :
  (length f < fuel)%nat -> copy_loop fuel f o = Some (o ++ f).
Proof.
  revert f o. induction fuel as [|fuel IH]; intros f o Hlen; [lia|].
  cbn [copy_loop]. destruct (take CHUNK f) as [|b chunk] eqn:E.
  - apply take_chunk_nil in E as ->. by rewrite app_nil_r.
  - assert (Hf : f <> []) by (intros ->; by rewrite take_nil in E).
    pose proof (drop_chunk_shorter f Hf).
    rewrite IH by lia. rewrite <- E, <- app_assoc, take_drop. done.
Qed.

Lemma hash_loop_spec (fuel : nat) (f h : list Byte.byte) :
  (length f < fuel)%nat -> hash_loop fuel f h = Some (h ++ f).
Proof.
  revert f h. induction fuel as [|fuel IH]; intros f h Hlen; [lia|].
  cbn [hash_loop]. destruct (take CHUNK f) as [|b chunk] eqn:E.
  - apply take_chunk_nil in E as ->. done.
  - assert (Hf : f <> []) by (intros ->; by rewrite take_nil in E).
    pose proof (drop_chunk_shorter f Hf).
    rewrite IH by lia. rewrite <- E, <- app_assoc, take_drop. done.
Qed.

End Chunks.

(** X10: the loop that copies a metadata file in chunks of 65536 bytes ends
    once the file is read through, and what it has written is the content of
    the file, byte for byte, whatever the length of the file. *)
Theorem copy_is_identical (content : list Byte.byte) (fuel : nat) :
  (length content < fuel)%nat ->
  Files.copy_loop fuel content [] = Some content.
Proof. intros H. by rewrite copy_loop_spec. Qed.

Lemma copy_is_identical_witness :
  Files.copy_loop 4 [Byte.x7b; Byte.x7d; Byte.x0a] [] = Some [Byte.x7b; Byte.x7d; Byte.x0a].
Proof. apply (copy_is_identical [Byte.x7b; Byte.x7d; Byte.x0a] 4). simpl. lia. Defined.

(** X11: [hash_path] ends once the file is read through, and its result is
    the digest of the whole content: reading in chunks of 65536 bytes and
    feeding the empty chunk at the end do not change it. *)
Theorem hash_path_whole_content (sha256_hexdigest : list Byte.byte -> string)
    (content : list Byte.byte) (fuel : nat) :
  (length content < fuel)%nat ->
  Files.hash_path sha256_hexdigest fuel content = Some (sha256_hexdigest content).
Proof. intros H. unfold Files.hash_path. by rewrite hash_loop_spec. Qed.

Lemma hash_path_whole_content_witness :
  Files.hash_path (fun data => String.string_of_list_ascii (ascii_of_byte <$> data)) 3
    [Byte.x61; Byte.x62]
  = Some "ab"%string.
Proof.
  assert (H : (length [Byte.x61; Byte.x62] < 3)%nat) by (simpl; lia).
  exact (hash_path_whole_content
           (fun data => String.string_of_list_ascii (ascii_of_byte <$> data))
           [Byte.x61; Byte.x62] 3 H).
Defined.

(** * The size argument of [tarsplit.py] *)

Section ParseSizeFacts.

Import Subset Cli.

Lemma substring_init (body rest : string) :
  String.substring 0 (String.length body) (body +:+ rest) = body.
Proof. induction body as [|c body IH]; simpl; [by destruct rest | by rewrite IH]. Qed.

Lemma substring_last (body : string) (c : ascii) :
  String.substring (String.length body) 1 (body +:+ String c EmptyString)
  = String c EmptyString.
Proof. induction body as [|a body IH]; simpl; [done | exact IH]. Qed.

Lemma endswith_last (body : string) (c c' : ascii) :
  endswith (body +:+ String c EmptyString) (String c' EmptyString) = bool_decide (c = c').
Proof.
  unfold endswith. rewrite string_length_app. simpl.
  rewrite decide_True by lia.
  replace (String.length body + 1 - 1)%nat with (String.length body) by lia.
  rewrite substring_last.
  destruct (decide (c = c')) as [->|Hne].
  - by rewrite !bool_decide_eq_true_2.
  - rewrite !bool_decide_eq_false_2; [done | done | congruence].
Qed.

Lemma drop_last_app (body : string) (c : ascii) :
  drop_last (body +:+ String c EmptyString) = body.
Proof.
  unfold drop_last. rewrite string_length_app. simpl.
  replace (String.length body + 1 - 1)%nat with (String.length body) by lia.
  apply substring_init.
Qed.

Lemma strip_suffix_letter (body : string) (i : nat) (c : ascii) :
  list_ascii_of_string "BKMGT" !! i = Some c ->
  strip_suffix (body +:+ String c EmptyString) suffixes = (body, 1024 ^ Z.of_nat i).
Proof.
  intros Hi. unfold suffixes. simpl.
  rewrite !endswith_last, drop_last_app.
  destruct i as [|[|[|[|[|i]]]]]; simpl in Hi; try done;
    injection Hi as <-; reflexivity.
Qed.

Lemma strip_suffix_other (body : string) (a : ascii) :
  a ∉ list_ascii_of_string "BKMGT" ->
  strip_suffix (body +:+ String a EmptyString) suffixes
  = (body +:+ String a EmptyString, 1).
Proof.
  intros Ha. unfold suffixes. simpl. rewrite !endswith_last.
  rewrite !bool_decide_eq_false_2; [done | ..]; intros ->; apply Ha; simpl; set_solver.
Qed.

End ParseSizeFacts.

(** X12: a size that ends in the [i]-th letter of [BKMGT] is the number in
    front of the letter times [1024 ^ i]; the number is what [int] makes of
    the text in front of the letter, whose error is passed on. *)
Theorem parse_size_suffix (int : string -> Subset.result Z) (body : string) (i : nat)
    (c : ascii) :
  list_ascii_of_string "BKMGT" !! i = Some c ->
  Cli.parse_size int (body +:+ String c EmptyString)
  = Subset.bind (int body) (fun n => Subset.Ok (n * 1024 ^ Z.of_nat i)).
Proof. intros Hi. unfold Cli.parse_size. by rewrite (strip_suffix_letter body i c). Qed.

Lemma parse_size_suffix_witness :
  Cli.parse_size Cases.int_of_digits "100M" = Subset.Ok Manifest.SPLIT_MAX.
Proof. exact (parse_size_suffix Cases.int_of_digits "100" 2 "M" eq_refl). Defined.

(** X13: a size that is empty or ends in another character than [B], [K],
    [M], [G], [T] (a lower case [k], a digit) is handed to [int] whole and
    counts bytes. *)
Theorem parse_size_plain (int : string -> Subset.result Z) (size : string) :
  size = EmptyString
  \/ (exists body a, size = body +:+ String a EmptyString
                     /\ a ∉ list_ascii_of_string "BKMGT") ->
  Cli.parse_size int size = Subset.bind (int size) (fun n => Subset.Ok (n * 1)).
Proof.
  intros [->|(body & a & -> & Ha)]; unfold Cli.parse_size.
  - reflexivity.
  - by rewrite strip_suffix_other.
Qed.

Lemma parse_size_plain_witness :
  Cli.parse_size Cases.int_of_digits "4096" = Subset.Ok 4096
  /\ Cli.parse_size Cases.int_of_digits "10k" = Subset.Raise Subset.ValueError.
Proof.
  split.
  - rewrite (parse_size_plain Cases.int_of_digits "4096"); [reflexivity|].
    right. exists "409"%string, "6"%char. split; [reflexivity|].
    vm_compute. intros H. repeat (apply elem_of_cons in H as [H|H]; [discriminate|]).
    by apply elem_of_nil in H.
  - rewrite (parse_size_plain Cases.int_of_digits "10k"); [reflexivity|].
    right. exists "10"%string, "k"%char. split; [reflexivity|].
    vm_compute. intros H. repeat (apply elem_of_cons in H as [H|H]; [discriminate|]).
    by apply elem_of_nil in H.
Defined.

(** * Names of splits *)

Section RenameFacts.

Import Manifest.





End RenameFacts.



(** * Further facts about the manifest and the index *)

Section ManifestDigests.

Import Manifest.

Variables (iterdir : string -> list string) (hash_path : string -> string).

Lemma foldl_insert_lookup {V : Type} (f : string -> string) (g : string -> V)
    (l : list string) (m : gmap string V) (p : string) :
  NoDup (f <$> l) -> p ∈ l ->
  foldl (fun h name => <[f name := g name]> h) m l !! f p = Some (g p).
Proof.
  revert m. induction l as [|x l IH]; intros m Hnd Hin; [by apply elem_of_nil in Hin|].
  csimpl in *. apply NoDup_cons in Hnd as [Hx Hnd].
  apply elem_of_cons in Hin as [->|Hin]; [|by apply IH].
  clear IH Hnd. revert m. induction l as [|y l IH]; intros m; csimpl.
  - by rewrite lookup_insert_eq.
  - apply not_elem_of_cons in Hx as [Hne Hx].
    rewrite insert_insert_ne by done. by apply IH.
Qed.

Lemma foldl_insert_key {V : Type} (F : string -> V) (l : list string)
    (m : gmap string V) (k : string) :
  foldl (fun h s => <[s := F s]> h) m l !! k
  = if decide (k ∈ l) then Some (F k) else m !! k.
Proof.
  revert m. induction l as [|x l IH]; intros m; csimpl; [done|].
  rewrite IH. destruct (decide (k ∈ l)) as [Hin|Hout].
  - rewrite decide_True by by right. done.
  - destruct (decide (k = x)) as [->|Hne].
    + rewrite decide_True by by left. by rewrite lookup_insert_eq.
    + rewrite decide_False by (by intros [?|?]%elem_of_cons).
      by rewrite lookup_insert_ne.
Qed.

End ManifestDigests.

(** X15: the manifest has an entry for each of the four renamed splits and
    for nothing else, built from the split's directory; and when no two of
    the paths listed for a split (the entries of its directory, then the two
    metadata files) have the same path relative to [repo_dir], the digest
    recorded under the relative path of each of them is [hash_path] of that
    file. *)
Theorem manifest_digest_of_listed_path (iterdir : string -> list string)
    (hash_path : string -> string) (repo_dir data_dir split path : string) :
  let listed := iterdir (Manifest.joinpath data_dir split)
                ++ [Manifest.joinpath data_dir (split +:+ ".json");
                    Manifest.joinpath data_dir (split +:+ "_000000.json")] in
  split ∈ ["clean"; "dirty"; "clean_sa"; "dirty_sa"]%string ->
  NoDup ((fun p => Manifest.relpath p repo_dir) <$> listed) ->
  path ∈ listed ->
  exists entry,
    Manifest.build_manifest iterdir hash_path repo_dir data_dir !! split = Some entry
    /\ entry = Manifest.build_split iterdir hash_path repo_dir data_dir split
    /\ Manifest.hashes entry !! Manifest.relpath path repo_dir = Some (hash_path path)
    /\ dom (Manifest.build_manifest iterdir hash_path repo_dir data_dir)
       = list_to_set ["clean"; "dirty"; "clean_sa"; "dirty_sa"]%string.
Proof.
  intros listed Hs Hnd Hp.
  exists (Manifest.build_split iterdir hash_path repo_dir data_dir split).
  assert (Hr : Manifest.RENAMES.*2 = ["clean"; "dirty"; "clean_sa"; "dirty_sa"]%string)
    by (vm_compute; reflexivity).
  split; [|split; [done|split]].
  - unfold Manifest.build_manifest. rewrite Hr.
    rewrite (foldl_insert_key (Manifest.build_split iterdir hash_path repo_dir data_dir)).
    by rewrite decide_True.
  - unfold Manifest.build_split. cbn [Manifest.hashes].
    by apply (foldl_insert_lookup (fun p => Manifest.relpath p repo_dir) hash_path).
  - unfold Manifest.build_manifest. rewrite Hr. simpl.
    rewrite !dom_insert_L, dom_empty_L. set_solver.
Qed.

Lemma manifest_digest_of_listed_path_witness :
  exists entry,
    Manifest.build_manifest Cases.listing Cases.digest "repo_out" "repo_out/data"
      !! "clean"%string = Some entry
    /\ Manifest.hashes entry !! "data/clean/clean_000001.tar"%string
       = Some "sha256 of repo_out/data/clean/clean_000001.tar"%string.
Proof.
  assert (Hs : "clean"%string ∈ ["clean"; "dirty"; "clean_sa"; "dirty_sa"]%string)
    by (by left).
  assert (Hnd : NoDup ((fun p => Manifest.relpath p "repo_out")
                         <$> (Cases.listing (Manifest.joinpath "repo_out/data" "clean")
                              ++ [Manifest.joinpath "repo_out/data" ("clean" +:+ ".json");
                                  Manifest.joinpath "repo_out/data"
                                    ("clean" +:+ "_000000.json")]))).
  { refine (bool_decide_unpack _ _). vm_compute. exact I. }
  assert (Hp : "repo_out/data/clean/clean_000001.tar"%string
               ∈ Cases.listing (Manifest.joinpath "repo_out/data" "clean")
                 ++ [Manifest.joinpath "repo_out/data" ("clean" +:+ ".json");
                     Manifest.joinpath "repo_out/data" ("clean" +:+ "_000000.json")]).
  { refine (bool_decide_unpack _ _). vm_compute. exact I. }
  destruct (manifest_digest_of_listed_path Cases.listing Cases.digest "repo_out"
              "repo_out/data" "clean" "repo_out/data/clean/clean_000001.tar" Hs Hnd Hp)
    as (entry & He & _ & Hh & _).
  exists entry. split; [exact He | exact Hh].
Defined.

Section IndexFacts.

Import Subset Manifest Index.

Variable normpath : string -> string.
Variable path_exists : string -> bool.
Variable getnames : string -> list string.
Variable read_lines : string -> list record.

Lemma sorted_tars_sorted (iterdir : string -> list string) (split_dir json_name : string) :
  Sorted String.le (sorted_tars path_exists iterdir split_dir json_name).
Proof. unfold sorted_tars. apply (Sorted_merge_sort String.le). Qed.

Lemma sorted_tars_perm (iterdir iterdir' : string -> list string)
    (split_dir json_name : string) :
  (forall dir, iterdir dir ≡ₚ iterdir' dir) ->
  sorted_tars path_exists iterdir split_dir json_name
  = sorted_tars path_exists iterdir' split_dir json_name.
Proof.
  intros Hperm. apply (Sorted_unique String.le); try apply sorted_tars_sorted.
  unfold sorted_tars. rewrite !(merge_sort_Permutation String.le).
  by rewrite Hperm.
Qed.

Lemma index_loop_perm (iterdir iterdir' : string -> list string) (repo_dir : string)
    (rows : list (string * string * string)) :
  (forall dir, iterdir dir ≡ₚ iterdir' dir) ->
  index_loop normpath path_exists iterdir getnames read_lines repo_dir rows
  = index_loop normpath path_exists iterdir' getnames read_lines repo_dir rows.
Proof.
  intros Hperm. induction rows as [|row rows IH]; [done|].
  cbn [index_loop]. rewrite IH. f_equal.
  unfold build_index_split. by rewrite (sorted_tars_perm iterdir iterdir').
Qed.

End IndexFacts.

(** X16: [build_index] sorts the archives of a split, so its result does not
    depend on the order in which the operating system lists a directory: two
    file systems whose directories hold the same entries give the same
    index, or the same exception of [make_subset]. *)
Theorem build_index_listing_order (normpath : string -> string)
    (path_exists : string -> bool) (iterdir iterdir' : string -> list string)
    (getnames : string -> list string) (read_lines : string -> list Subset.record)
    (repo_dir : string) :
  (forall dir, iterdir dir ≡ₚ iterdir' dir) ->
  Index.build_index normpath path_exists iterdir getnames read_lines repo_dir
  = Index.build_index normpath path_exists iterdir' getnames read_lines repo_dir.
Proof. intros Hperm. unfold Index.build_index. by apply index_loop_perm. Qed.

Lemma build_index_listing_order_witness :
  Index.build_index id (fun _ => true) Cases.index_listing (fun _ => []) (fun _ => [])
    "repo_out"
  = Index.build_index id (fun _ => true) Cases.index_listing_by_name (fun _ => [])
      (fun _ => []) "repo_out".
Proof.
  apply build_index_listing_order. intros dir.
  unfold Cases.index_listing, Cases.index_listing_by_name.
  destruct (decide (dir = "repo_out/train/clean"%string)); [|done].
  apply Permutation_cons_app with (l1 := ["repo_out/train/clean/clean_000000.tar";
                                          "repo_out/train/clean/clean_000001.tar"]%string)
                                  (l2 := ["repo_out/train/clean/notes.txt"]%string).
  apply perm_skip, perm_swap.
Defined.

(** The directory is read: the index of [train-clean] lists its three
    archives by name, whichever of the two orders the listing has. *)
Example build_index_train_clean :
  Index.sorted_tars (fun _ => true) Cases.index_listing "repo_out/train" "clean"
  = ["repo_out/train/clean/clean_000000.tar";
     "repo_out/train/clean/clean_000001.tar";
     "repo_out/train/clean/clean_000002.tar"].
Proof. vm_compute. reflexivity. Qed.

(** * Filtering twice *)

Section Idempotent.

Import Subset.
Local Open Scope nat_scope.

Lemma select_all {A : Type} (mask : list bool) (col : list A) :
  Forall (fun b => b = true) mask -> length col <= length mask -> select mask col = col.
Proof.
  intros H. revert col. induction H as [|b mask -> _ IH]; intros [|x col] Hlen;
    simpl in *; try done; [lia|].
  rewrite IH; [done | lia].
Qed.

Variables (norm : string -> string) (filenames : gset string).
Variable columns : gmap string (list string) -> gmap string (list string).
Hypothesis columns_name : forall train, columns train !! "name"%string = train !! "name"%string.
Hypothesis columns_sub :
  forall train k col, columns train !! k = Some col -> train !! k = Some col.
Hypothesis columns_fmap :
  forall (f : list string -> list string) train,
    columns (f <$> columns train) = f <$> columns train.

Local Abbreviation keep := (in_reference norm filenames).

Lemma keep_filter_all (names : list string) :
  Forall (fun b => b = true) (keep <$> filter (fun n => keep n = true) names).
Proof.
  apply Forall_fmap, Forall_forall. intros n Hn. simpl.
  by apply list_elem_of_filter in Hn as [? _].
Qed.

Lemma existsb_filter_nonempty (names : list string) :
  existsb id (keep <$> names) = true -> filter (fun n => keep n = true) names <> [].
Proof.
  induction names as [|n names IH]; csimpl; [done|].
  destruct (keep n) eqn:E; simpl.
  - intros _. by rewrite filter_cons_True.
  - intros H. rewrite filter_cons_False by (by rewrite E). by apply IH.
Qed.

Lemma existsb_all_true (mask : list bool) :
  mask <> [] -> Forall (fun b => b = true) mask -> existsb id mask = true.
Proof. intros Hne H. destruct H as [|b mask -> _]; [done|]. done. Qed.

(** A record the filter wrote is written again as it is. *)
Lemma filter_record_fixed (j j' : record) :
  aligned ["name"%string] j ->
  filter_record keep columns j = Some j' ->
  filter_record keep columns j' = Some j'.
Proof.
  intros [Hk [n Hn]] Hj.
  pose proof (filter_record_names norm filenames columns columns_name j j' Hj) as Hnames'.
  destruct (Hk "name"%string) as [names Hnm]; [set_solver|].
  assert (Hnl : names_of_line j = names) by (unfold names_of_line; by rewrite Hnm).
  rewrite Hnl in Hnames'.
  unfold filter_record in Hj.
  destruct (existsb id (keep <$> names_of_line j)) eqn:Hex; [|done].
  rewrite Hnl in Hj, Hex. injection Hj as <-.
  set (mask := keep <$> names) in *.
  set (kept := filter (fun n => keep n = true) names) in *.
  unfold filter_record, names_of_line. cbn [training_data passthrough] in *.
  rewrite Hnames'. cbn [default].
  rewrite existsb_all_true;
    [| by intros E%fmap_nil_inv; apply (existsb_filter_nonempty names) | apply keep_filter_all].
  f_equal. f_equal. rewrite columns_fmap.
  apply map_eq. intros k. rewrite !lookup_fmap.
  destruct (columns (training_data j) !! k) as [c|] eqn:Ec; [|done].
  simpl. f_equal. apply select_all; [apply keep_filter_all|].
  rewrite length_fmap. unfold kept. rewrite <- select_filter.
  fold mask. apply Nat.eq_le_incl, select_length_eq.
  rewrite (Hn _ _ (columns_sub _ _ _ Ec)). by rewrite (Hn _ _ Hnm).
Qed.

Lemma filter_stream_fixed (lines : list record) :
  Forall (aligned ["name"%string]) lines ->
  filter_stream keep columns (filter_stream keep columns lines)
  = filter_stream keep columns lines.
Proof.
  intros H. unfold filter_stream. induction H as [|j lines Hj _ IH]; [done|]. csimpl.
  destruct (filter_record keep columns j) as [j'|] eqn:E; [|done]. csimpl.
  by rewrite (filter_record_fixed j j' Hj E), IH.
Qed.

Lemma hits_filter_keep (names : list string) :
  filter (fun n => n ∈ filenames) (norm <$> filter (fun n => keep n = true) names)
  = filter (fun n => n ∈ filenames) (norm <$> names).
Proof.
  induction names as [|n names IH]; [done|].
  destruct (decide (norm n ∈ filenames)) as [Hin|Hout].
  - rewrite (filter_cons_True (fun n => keep n = true))
      by (unfold in_reference; by apply bool_decide_eq_true_2).
    csimpl. rewrite !filter_cons_True by done. by rewrite IH.
  - rewrite (filter_cons_False (fun n => keep n = true))
      by (unfold in_reference; rewrite bool_decide_eq_false_2; done).
    csimpl. rewrite (filter_cons_False _ (norm n)) by done. exact IH.
Qed.

(** The filtered stream matches the same names, in the same order. *)
Lemma matched_filter_stream (lines : list record) :
  matched norm filenames (filter_stream keep columns lines) = matched norm filenames lines.
Proof.
  induction lines as [|j lines IH]; [done|].
  rewrite (matched_cons filenames norm j lines). unfold filter_stream. csimpl.
  fold (filter_stream keep columns lines).
  destruct (filter_record keep columns j) as [j'|] eqn:E; csimpl.
  - rewrite (matched_cons filenames norm j'), IH. f_equal.
    unfold names_of_line at 1.
    rewrite (filter_record_names norm filenames columns columns_name j j' E). simpl.
    apply hits_filter_keep.
  - rewrite IH.
    rewrite <- hits_filter_keep,
      (filter_record_none norm filenames columns j E). done.
Qed.

Lemma filter_stream_keys (keys : list string) (lines : list record) :
  (forall train k, k ∈ keys -> is_Some (train !! k) -> is_Some (columns train !! k)) ->
  "name"%string ∈ keys ->
  Forall (aligned keys) lines ->
  Forall (aligned keys) (filter_stream keep columns lines).
Proof.
  intros Hkeys Hname Hal.
  assert (Hal' : Forall (aligned ["name"%string]) lines).
  { eapply Forall_impl; [exact Hal|]. intros j [Hk Hn]. split; [|done].
    intros k ->%list_elem_of_singleton. by apply Hk. }
  pose proof (filter_stream_equal_columns keep columns lines columns_sub Hal') as Heq.
  unfold filter_stream in *. clear Hal'.
  induction Hal as [|j lines [Hk Hn] _ IH]; [constructor|]. csimpl in *.
  destruct (filter_record keep columns j) as [j'|] eqn:E; [|by apply IH].
  apply Forall_cons in Heq as [Hj' Heq].
  constructor; [|by apply IH]. split; [|done].
  intros k Hin. unfold filter_record in E.
  destruct (existsb id (keep <$> names_of_line j)); [|done].
  injection E as <-. simpl. rewrite lookup_fmap.
  destruct (Hkeys (training_data j) k Hin (Hk k Hin)) as [c Hc]. rewrite Hc. by eexists.
Qed.

End Idempotent.

Section OnlyColumns.

Import Subset.

Lemma only_fmap (keys : list string) (f : list string -> list string)
    (train : gmap string (list string)) :
  only keys (f <$> only keys train) = f <$> only keys train.
Proof.
  apply map_eq. intros k. destruct (decide (k ∈ keys)) as [Hin|Hout].
  - by rewrite only_lookup_in.
  - rewrite only_lookup_out by done. rewrite lookup_fmap.
    by rewrite only_lookup_out.
Qed.

End OnlyColumns.

(** X18: filtering is idempotent.  When the records have the four columns
    in one length and no name of the reference set is matched twice, running
    a filter again on the file it wrote, with the same reference archive,
    gives the same file, the same report and no exception. *)
Theorem subset_filter_idempotent (normpath : string -> string) (tar_names : list string)
    (lines : list Subset.record) :
  Forall (Subset.aligned Subset.train_keys) lines ->
  NoDup (Subset.matched id (list_to_set tar_names) lines) ->
  NoDup (Subset.matched normpath (Subset.flac_names normpath tar_names) lines) ->
  Subset.build_subsets tar_names (Subset.written (Subset.build_subsets tar_names lines))
  = Subset.build_subsets tar_names lines
  /\ Subset.make_subset normpath tar_names
       (Subset.written (Subset.make_subset normpath tar_names lines))
     = Subset.make_subset normpath tar_names lines.
Proof.
  intros Hal Hb Hm.
  assert (Hal' : Forall (Subset.aligned ["name"%string]) lines).
  { eapply Forall_impl; [exact Hal|]. apply aligned_name. }
  assert (Hname : "name"%string ∈ Subset.train_keys)
    by (unfold Subset.train_keys; set_solver).
  assert (Hon : forall train : gmap string (list string),
             Subset.only Subset.train_keys train !! "name"%string = train !! "name"%string).
  { intros train. by apply only_lookup_in. }
  assert (Hos : forall (train : gmap string (list string)) k col,
             Subset.only Subset.train_keys train !! k = Some col -> train !! k = Some col).
  { intros train. apply only_sub. }
  assert (Hof : forall (f : list string -> list string) (train : gmap string (list string)),
             Subset.only Subset.train_keys (f <$> Subset.only Subset.train_keys train)
             = f <$> Subset.only Subset.train_keys train).
  { intros f train. apply only_fmap. }
  split.
  - rewrite (build_subsets_ok tar_names lines) by done. cbn [Subset.written].
    rewrite build_subsets_ok.
    + rewrite (filter_stream_fixed id _ _ Hon Hos Hof lines Hal').
      by rewrite (matched_filter_stream id _ _ Hon lines).
    + apply (filter_stream_keys id _ _ Hos); [|done|done].
      intros train k Hin Hs. by rewrite only_lookup_in.
    + by rewrite (matched_filter_stream id _ _ Hon lines).
  - rewrite (make_subset_ok normpath tar_names lines) by done. cbn [Subset.written].
    rewrite make_subset_ok.
    + rewrite (filter_stream_fixed normpath _ id) by done.
      by rewrite (matched_filter_stream normpath _ id).
    + apply (filter_stream_keys normpath _ id); [done|done| |done]. set_solver.
    + by rewrite (matched_filter_stream normpath _ id).
Qed.

Lemma subset_filter_idempotent_witness :
  Subset.build_subsets ["a.flac"; "c.flac"]%string
    (Subset.written (Subset.build_subsets ["a.flac"; "c.flac"]%string [Cases.abc]))
  = Subset.build_subsets ["a.flac"; "c.flac"]%string [Cases.abc].
Proof.
  assert (Hal : Forall (Subset.aligned Subset.train_keys) [Cases.abc]).
  { apply Forall_singleton, check_aligned_sound. vm_compute. reflexivity. }
  assert (Hb : NoDup (Subset.matched id (list_to_set ["a.flac"; "c.flac"]%string) [Cases.abc])).
  { refine (bool_decide_unpack _ _). vm_compute. exact I. }
  assert (Hm : NoDup (Subset.matched id (Subset.flac_names id ["a.flac"; "c.flac"]%string)
                        [Cases.abc])).
  { refine (bool_decide_unpack _ _). vm_compute. exact I. }
  exact (proj1 (subset_filter_idempotent id ["a.flac"; "c.flac"]%string [Cases.abc]
                  Hal Hb Hm)).
Defined.
